(** * testseat: a seating randomizer for exams

    Shallow embedding of [testseat.py] and the properties of its loader,
    assigner and grid renderer.

    Python values are modelled as follows.
    - [int] is [Z]; [range(a, b)] is the list of integers from [a] up to
      [b - 1] (empty when [b <= a]).
    - [str] is a list of Unicode code points ([N]); [lit] turns an ASCII
      literal of the source into such a list.
    - a raised exception is the [Raise] case of [result].
    - [random.Random] is a generator state with the operations the program
      reaches through [shuffle]; the generator is a parameter of the
      development (Section [Assigner]). *)

From Stdlib Require Import ZArith NArith Ascii String DecimalString DecimalPos DecimalZ Sorted.
From stdpp Require Import base gmap sets list.

Local Open Scope Z_scope.

(** ** Strings and exceptions *)

Definition char := N.
Definition str := list char.

Definition lit (s : string) : str :=
  map N_of_ascii (list_ascii_of_string s).

Arguments lit : simpl never.

(** [str(i)] for an [int]: decimal digits with a leading minus when negative. *)
Definition int_to_str (i : Z) : str :=
  lit (NilZero.string_of_int (Z.to_int i)).

Arguments int_to_str : simpl never.

Inductive exn : Type :=
  | ValueError (msg : string)
  | IndexError
  | OSError.

Inductive result (A : Type) : Type :=
  | Ok (a : A)
  | Raise (e : exn).
Arguments Ok {A} a.
Arguments Raise {A} e.

#[global] Instance result_ret : MRet result := @Ok.
#[global] Instance result_bind : MBind result := λ A B k m,
  match m with
  | Ok a => k a
  | Raise e => Raise e
  end.

#[global] Instance exn_eq_dec : EqDecision exn.
Proof. solve_decision. Defined.

#[global] Instance result_eq_dec `{EqDecision A} : EqDecision (result A).
Proof. solve_decision. Defined.

(** [range(a, b)] *)
Definition range (a b : Z) : list Z := seqZ a (b - a).

(** ** Seat *)

Record Seat : Type := mkSeat { row : Z; col : Z }.

#[global] Instance Seat_eq_dec : EqDecision Seat.
Proof. solve_decision. Defined.

#[global] Instance Seat_countable : Countable Seat.
Proof.
  refine (inj_countable' (λ s, (row s, col s)) (λ p, mkSeat p.1 p.2) _).
  by intros [].
Defined.

(** [Seat.label] *)
Definition label (s : Seat) : str :=
  lit "R" ++ int_to_str (row s) ++ lit "C" ++ int_to_str (col s).

(** ** The assigner *)

(** [{Seat(r, c) for r, c in (blocked or [])}] *)
Definition blocked_set (blocked : option (list (Z * Z))) : gset Seat :=
  list_to_set (map (λ rc, mkSeat rc.1 rc.2) (default [] blocked)).

(** [[Seat(r, c) for r in range(1, rows + 1) for c in range(1, cols + 1)]] *)
Definition all_seats (rows cols : Z) : list Seat :=
  r ← range 1 (rows + 1); c ← range 1 (cols + 1); [mkSeat r c].

(** [[s for s in all_seats if s not in blocked_set]] *)
Definition available_seats (rows cols : Z) (blocked : option (list (Z * Z)))
  : list Seat :=
  filter (λ s, s ∉ blocked_set blocked) (all_seats rows cols).

Definition capacity_error : exn :=
  ValueError "Not enough available seats for all students.".

(** [x[i], x[j] = x[j], x[i]]: both reads happen first and raise
    [IndexError] outside the list. *)
Definition swap {A} (i j : nat) (x : list A) : result (list A) :=
  match x !! j, x !! i with
  | Some xj, Some xi => Ok (<[j := xi]> (<[i := xj]> x))
  | _, _ => Raise IndexError
  end.

(** *** Store of list objects

    A Python list is a mutable object reached through a reference.  The
    store maps references to the current contents of each list object. *)

Definition loc := nat.
Definition St (A : Type) : Type := gmap loc (list str) → result A * gmap loc (list str).

#[global] Instance St_ret : MRet St := λ A a h, (Ok a, h).
#[global] Instance St_bind : MBind St := λ A B k m h,
  match m h with
  | (Ok a, h') => k a h'
  | (Raise e, h') => (Raise e, h')
  end.

Definition raise_st {A} (e : exn) : St A := λ h, (Raise e, h).

(** contents of the list object at [x] *)
Definition read_st (x : loc) : St (list str) := λ h, (Ok (h !!! x), h).

(** [len(x)] *)
Definition len_st (x : loc) : St nat := λ h, (Ok (length (h !!! x)), h).

(** [x[i]] *)
Definition getitem_st (x : loc) (i : nat) : St str := λ h,
  match (h !!! x) !! i with
  | Some v => (Ok v, h)
  | None => (Raise IndexError, h)
  end.

(** [x[i] = v] *)
Definition setitem_st (x : loc) (i : nat) (v : str) : St unit := λ h,
  if decide (i < length (h !!! x))%nat then (Ok (), <[x := <[i := v]> (h !!! x)]> h)
  else (Raise IndexError, h).

(** [list(x)]: a new list object with the same elements *)
Definition list_st (x : loc) : St loc := λ h,
  let y := fresh (dom h) in (Ok y, <[y := h !!! x]> h).

(** [x[i], x[j] = x[j], x[i]] on the list object at [x] *)
Definition swap_st (i j : nat) (x : loc) : St unit :=
  xj ← getitem_st x j;
  xi ← getitem_st x i;
  setitem_st x i xj;;
  setitem_st x j xi.

(** [reversed(range(1, n))] as list positions *)
Definition shuffle_indices (n : nat) : list nat := reverse (seq 1 (n - 1)).

Section Assigner.
(** The pseudo-random generator behind [random.Random]: its state, the
    state a given integer seed yields, and [_randbelow]. *)
Variable Rng : Type.
Variable seed_rng : Z → Rng.
Variable randbelow : Rng → nat → nat * Rng.

(** [random.Random(seed)]: with [seed=None] the state comes from the
    operating system, here the argument [os]. *)
Definition Random (seed : option Z) (os : Rng) : Rng :=
  match seed with
  | Some s => seed_rng s
  | None => os
  end.

(** The loop of [Random.shuffle]:
    [for i in reversed(range(1, len(x))): j = randbelow(i + 1); swap]. *)
Fixpoint shuffle_loop {A} (idx : list nat) (g : Rng) (x : list A)
  : result (list A) :=
  match idx with
  | [] => Ok x
  | i :: idx' =>
      let '(j, g') := randbelow g (i + 1) in
      x' ← swap i j x;
      shuffle_loop idx' g' x'
  end.

Definition shuffle {A} (g : Rng) (x : list A) : result (list A) :=
  shuffle_loop (shuffle_indices (length x)) g x.

Definition assign_seats (students : list str) (rows cols : Z)
    (blocked : option (list (Z * Z))) (seed : option Z) (os : Rng)
  : result (list (Seat * str)) :=
  let available := available_seats rows cols blocked in
  if decide (length available < length students)%nat then
    Raise capacity_error
  else
    let rng := Random seed os in
    shuffled ← shuffle rng students;
    Ok (zip available shuffled).

(** *** The same function over a store of list objects

    [students] is passed by reference; [list(students)] allocates a new
    list and [shuffle] updates that list in place. *)

Fixpoint shuffle_loop_st (idx : list nat) (g : Rng) (x : loc) : St unit :=
  match idx with
  | [] => mret ()
  | i :: idx' =>
      let '(j, g') := randbelow g (i + 1) in
      swap_st i j x;;
      shuffle_loop_st idx' g' x
  end.

Definition shuffle_st (g : Rng) (x : loc) : St unit :=
  n ← len_st x;
  shuffle_loop_st (shuffle_indices n) g x.

Definition assign_seats_st (students : loc) (rows cols : Z)
    (blocked : option (list (Z * Z))) (seed : option Z) (os : Rng)
  : St (list (Seat * str)) :=
  let available := available_seats rows cols blocked in
  n ← len_st students;
  if decide (length available < n)%nat then
    raise_st capacity_error
  else
    let rng := Random seed os in
    shuffled ← list_st students;
    shuffle_st rng shuffled;;
    xs ← read_st shuffled;
    mret (zip available xs).

End Assigner.

Arguments Random {Rng} seed_rng seed os.
Arguments shuffle_loop {Rng} randbelow {A} idx g x.
Arguments shuffle {Rng} randbelow {A} g x.
Arguments assign_seats {Rng} seed_rng randbelow students rows cols blocked seed os.
Arguments shuffle_loop_st {Rng} randbelow idx g x.
Arguments shuffle_st {Rng} randbelow g x.
Arguments assign_seats_st {Rng} seed_rng randbelow students rows cols blocked seed os.


(** ** The loader *)

(** Code points at which [str.splitlines] ends a line. *)
Definition linebreaks : list char :=
  [10; 11; 12; 13; 28; 29; 30; 133; 8232; 8233]%N.

(** Code points that [str.strip] and [str.split] treat as whitespace. *)
Definition whitespace : list char :=
  [9; 10; 11; 12; 13; 28; 29; 30; 31; 32; 133; 160; 5760;
   8192; 8193; 8194; 8195; 8196; 8197; 8198; 8199; 8200; 8201; 8202;
   8232; 8233; 8239; 8287; 12288]%N.

Definition is_linebreak (c : char) : Prop := c ∈ linebreaks.
Definition is_space (c : char) : Prop := c ∈ whitespace.

#[global] Instance is_linebreak_dec c : Decision (is_linebreak c).
Proof. unfold is_linebreak. apply _. Defined.
#[global] Instance is_space_dec c : Decision (is_space c).
Proof. unfold is_space. apply _. Defined.

(** [text.splitlines()]: [cur] is the line read so far.  A carriage return
    directly followed by a line feed ends one line, and no empty line is
    produced after the last line break. *)
Fixpoint splitlines_from (cur : str) (s : str) : list str :=
  match s with
  | [] => if decide (cur = []) then [] else [cur]
  | c :: rest =>
      if decide (is_linebreak c) then
        cur ::
          match rest with
          | c' :: rest' =>
              if decide (c = 13%N ∧ c' = 10%N) then splitlines_from [] rest'
              else splitlines_from [] rest
          | [] => splitlines_from [] rest
          end
      else splitlines_from (cur ++ [c]) rest
  end.

Definition splitlines (s : str) : list str := splitlines_from [] s.

Fixpoint lstrip (s : str) : str :=
  match s with
  | c :: rest => if decide (is_space c) then lstrip rest else s
  | [] => []
  end.

(** [line.strip()] *)
Definition strip (s : str) : str := reverse (lstrip (reverse (lstrip s))).

(** [line.split()]: the maximal runs of non-whitespace, [cur] being the run
    read so far. *)
Fixpoint split_from (cur : str) (s : str) : list str :=
  match s with
  | [] => if decide (cur = []) then [] else [cur]
  | c :: rest =>
      if decide (is_space c) then
        if decide (cur = []) then split_from [] rest
        else cur :: split_from [] rest
      else split_from (cur ++ [c]) rest
  end.

Definition split (s : str) : list str := split_from [] s.

(** The body of the [for line in text.splitlines()] loop, [students] being
    the list built so far. *)
Fixpoint load_lines (lines : list str) (students : list str)
  : result (list str) :=
  match lines with
  | [] => Ok students
  | line :: lines' =>
      let line := strip line in
      if decide (line = []) then load_lines lines' students
      else
        let parts := split line in
        if decide (2 ≤ length parts)%nat then
          match parts with
          | student_id :: rest =>
              let name := concat rest in
              load_lines lines' (students ++ [student_id ++ lit " " ++ name])
          | [] => Raise IndexError
          end
        else
          match parts with
          | p0 :: _ => load_lines lines' (students ++ [p0])
          | [] => Raise IndexError
          end
  end.

(** [load_students]: [read_text] is the file system, giving the decoded
    text of a path or the exception that reading it raises. *)
Definition load_students (read_text : string → result str) (path : string)
  : result (list str) :=
  text ← read_text path;
  load_lines (splitlines text) [].

(** ** The grid renderer *)

(** Position addressed by a Python index [i] in a list of length [n]:
    negative indices count from the end. *)
Definition py_index (n : nat) (i : Z) : option nat :=
  if decide (0 ≤ i < Z.of_nat n) then Some (Z.to_nat i)
  else if decide (- Z.of_nat n ≤ i < 0) then Some (Z.to_nat (Z.of_nat n + i))
  else None.

(** [grid[r][c] = v] *)
Definition grid_set (grid : list (list str)) (r c : Z) (v : str)
  : result (list (list str)) :=
  match py_index (length grid) r with
  | None => Raise IndexError
  | Some ri =>
      match grid !! ri with
      | None => Raise IndexError
      | Some line =>
          match py_index (length line) c with
          | None => Raise IndexError
          | Some ci => Ok (<[ri := <[ci := v]> line]> grid)
          end
      end
  end.

(** [for seat, student in assignments: grid[seat.row - 1][seat.col - 1] = student] *)
Fixpoint fill_grid (assignments : list (Seat * str)) (grid : list (list str))
  : result (list (list str)) :=
  match assignments with
  | [] => Ok grid
  | (seat, student) :: assignments' =>
      grid' ← grid_set grid (row seat - 1) (col seat - 1) student;
      fill_grid assignments' grid'
  end.

(** [sep.join(xs)] *)
Fixpoint join (sep : str) (xs : list str) : str :=
  match xs with
  | [] => []
  | [x] => x
  | x :: xs' => x ++ sep ++ join sep xs'
  end.

(** [name or "-"] *)
Definition display (name : str) : str :=
  if decide (name = []) then lit "-" else name.

(** One cell: [f"{label}: {display}"] with [label = f"R{r}C{c}"] *)
Definition cell (r c : Z) (name : str) : str :=
  (lit "R" ++ int_to_str r ++ lit "C" ++ int_to_str c) ++ lit ": " ++ display name.

(** One line of the grid; [enumerate(row, start=1)] numbers the cells. *)
Definition grid_line (r : Z) (line : list str) : str :=
  join (lit " | ") (imap (λ c name, cell r (1 + Z.of_nat c) name) line).

Definition format_grid (assignments : list (Seat * str)) (rows cols : Z)
  : result str :=
  let grid := replicate (Z.to_nat rows) (replicate (Z.to_nat cols) []) in
  grid ← fill_grid assignments grid;
  let lines := imap (λ r line, grid_line (1 + Z.of_nat r) line) grid in
  Ok (join (lit (String "010" "")) lines).

(** ** Layout of a roster file *)

(** A line of the roster file as it is laid out: leading whitespace, then
    the fields, each with the whitespace that follows it. *)
Record layout : Type := Layout { lead : str; fields : list (str * str) }.

(** Whitespace that does not end a line. *)
Definition blank (c : char) : Prop := is_space c ∧ ¬ is_linebreak c.

#[global] Instance blank_dec c : Decision (blank c).
Proof. unfold blank. apply _. Defined.

(** Fields are non-empty and free of whitespace, and whitespace separates
    each field from the next. *)
Fixpoint wf_fields (fs : list (str * str)) : Prop :=
  match fs with
  | [] => True
  | (t, sep) :: fs' =>
      t ≠ [] ∧ Forall (λ c, ¬ is_space c) t ∧ Forall blank sep ∧
      (fs' ≠ [] → sep ≠ []) ∧ wf_fields fs'
  end.

#[global] Instance wf_fields_dec fs : Decision (wf_fields fs).
Proof. induction fs as [|[t sep] fs IH]; simpl; apply _. Defined.

Definition wf_layout (l : layout) : Prop :=
  Forall blank (lead l) ∧ wf_fields (fields l).

#[global] Instance wf_layout_dec l : Decision (wf_layout l).
Proof. unfold wf_layout. apply _. Defined.

Definition line_text (l : layout) : str :=
  lead l ++ concat ((λ f, f.1 ++ f.2) <$> fields l).

(** Line breaks between the lines of a file: a line feed, a carriage
    return with a line feed, or one of the other single line-break
    characters. *)
Definition line_ends : list str :=
  [[10]; [13; 10]; [11]; [12]; [28]; [29]; [30]; [133]; [8232]; [8233]]%N.

(** The text of a file: lines with their line breaks, and a last line that
    has none. *)
Definition file_text (ls : list (layout * str)) (last : layout) : str :=
  concat ((λ le, line_text le.1 ++ le.2) <$> ls) ++ line_text last.

(** The entry a line contributes: none for a line without fields, the
    field itself for a single field, and otherwise the first field, a
    space, and the remaining fields run together. *)
Definition entry (l : layout) : option str :=
  match (fields l).*1 with
  | [] => None
  | [t] => Some t
  | student_id :: rest => Some (student_id ++ lit " " ++ concat rest)
  end.

(** ** A concrete generator

    A linear congruential generator, used to run the assigner on concrete
    inputs. *)
Definition lcg (g : N) : N := ((g * 1103515245 + 12345) mod 2147483648)%N.

Definition lcg_randbelow (g : N) (n : nat) : nat * N :=
  ((N.to_nat (lcg g / 65536) mod n)%nat, lcg g).

Definition lcg_assign := assign_seats Z.to_N lcg_randbelow.

(** A generator that replays a given list of draws: [_randbelow(n)] is the
    next draw, reduced below [n]. *)
Definition scripted_randbelow (g : list nat) (n : nat) : nat * list nat :=
  ((hd 0 g mod n)%nat, tl g).

(** ** Sample inputs *)

Definition abc : list str := [lit "A"; lit "B"; lit "C"].

(** The roster ["007   Jane   Doe\n  \r\nSolo "]. *)
Definition roster_lines : list (layout * str) :=
  [ (Layout [] [(lit "007", lit "   "); (lit "Jane", lit "   "); (lit "Doe", [])],
     [10%N]);
    (Layout (lit "  ") [], [13%N; 10%N]) ].

Definition roster_last : layout := Layout [] [(lit "Solo", lit " ")].

(** ** Reference descriptions

    What the renderer is expected to print, written without the grid
    buffer: the student a seat ends up with is the one of the last pair
    that names the seat. *)

Fixpoint stored (assignments : list (Seat * str)) (s : Seat) : option str :=
  match assignments with
  | [] => None
  | (s', x) :: rest =>
      match stored rest s with
      | Some y => Some y
      | None => if decide (s' = s) then Some x else None
      end
  end.

(** The text of the cell in row [r], column [c]: the stored student, or the
    placeholder when the seat is unassigned or the stored string is empty. *)
Definition rendered_cell (assignments : list (Seat * str)) (r c : Z) : str :=
  label (mkSeat r c) ++ lit ": " ++
  match stored assignments (mkSeat r c) with
  | Some x => if decide (x = []) then lit "-" else x
  | None => lit "-"
  end.

Definition rendered_grid (assignments : list (Seat * str)) (rows cols : Z) : str :=
  join (lit (String "010" ""))
    ((λ r, join (lit " | ") (rendered_cell assignments r <$> range 1 (cols + 1)))
       <$> range 1 (rows + 1)).

(** The cell as the specification words it: the stored student string for
    an assigned seat, the placeholder for an unassigned one. *)
Definition cell_as_specified (assignments : list (Seat * str)) (r c : Z) : str :=
  label (mkSeat r c) ++ lit ": " ++
  match stored assignments (mkSeat r c) with
  | Some x => x
  | None => lit "-"
  end.

Definition grid_as_specified (assignments : list (Seat * str)) (rows cols : Z) : str :=
  join (lit (String "010" ""))
    ((λ r, join (lit " | ") (cell_as_specified assignments r <$> range 1 (cols + 1)))
       <$> range 1 (rows + 1)).

Definition in_grid (rows cols : Z) (s : Seat) : Prop :=
  1 ≤ row s ≤ rows ∧ 1 ≤ col s ≤ cols.

#[global] Instance in_grid_dec rows cols s : Decision (in_grid rows cols s).
Proof. unfold in_grid. apply _. Defined.

(** A grid buffer with [R] lines of [C] cells, and its cell [i], [j]. *)
Definition shape (R C : nat) (grid : list (list str)) : Prop :=
  length grid = R ∧ Forall (λ line, length line = C) grid.

Definition cell_at (grid : list (list str)) (i j : nat) : option str :=
  grid !! i ≫= λ line, line !! j.

(** ** The entry point *)

(** The fallback list of [main]. *)
Definition demo_students : list str :=
  [lit "Alice"; lit "Bob"; lit "Charlie"; lit "Dana"; lit "Eli"; lit "Fatima";
   lit "Gina"; lit "Hiro"; lit "Ivy"; lit "Jamal"; lit "Kim"; lit "Liu"].

(** [print(s)]: [s] and a newline are appended to standard output. *)
Definition print (s : str) (out : str) : str := out ++ s ++ [10%N].

(** [main]: [path_exists] and [read_text] are the file system, [os] the
    entropy-seeded generator state ([seed] is [None]).  The result is the text
    written to standard output and the outcome of the run. *)
Definition main {Rng} (seed_rng : Z → Rng) (randbelow : Rng → nat → nat * Rng)
    (path_exists : string → bool) (read_text : string → result str) (os : Rng)
  : str * result () :=
  let students_file := "logic.txt"%string in
  let loaded :=
    if path_exists students_file then load_students read_text students_file
    else Ok demo_students in
  match loaded with
  | Raise e => ([], Raise e)
  | Ok students =>
      let rows := 7 in
      let cols := 9 in
      let blocked_seats : list (Z * Z) := [] in
      let seed : option Z := None in
      match assign_seats seed_rng randbelow students rows cols
              (Some blocked_seats) seed os with
      | Raise e => ([], Raise e)
      | Ok assignments =>
          let out := print (lit "Seating assignments:") [] in
          let out :=
            foldl (λ out p, print (label p.1 ++ lit ": " ++ p.2) out)
              out assignments in
          let out := print ([10%N] ++ lit "Room view:") out in
          match format_grid assignments rows cols with
          | Raise e => (out, Raise e)
          | Ok grid => (print grid out, Ok ())
          end
      end
  end.

(** ** Further reference descriptions *)

(** A field of a roster line: not empty and free of whitespace. *)
Definition token (t : str) : Prop := t ≠ [] ∧ Forall (λ c, ¬ is_space c) t.

(** The strings the loader produces: a field, or two fields with one space
    between them. *)
Definition student_record (x : str) : Prop :=
  token x ∨ ∃ student_id name, token student_id ∧ token name ∧
                               x = student_id ++ lit " " ++ name.

(** The characters of a decimal numeral: digits and the minus sign. *)
Definition numeral_chars : list char :=
  [45; 48; 49; 50; 51; 52; 53; 54; 55; 56; 57]%N.

(** Row-major order of seats. *)
Definition seat_lt (s1 s2 : Seat) : Prop :=
  row s1 < row s2 ∨ (row s1 = row s2 ∧ col s1 < col s2).

(** The seats [grid[seat.row - 1][seat.col - 1]] can address in a grid of
    [rows] lines and [cols] cells, and the seat inside the grid that a
    negative index stands for. *)
Definition addressable (rows cols : Z) (s : Seat) : Prop :=
  - Z.max 0 rows < row s ≤ Z.max 0 rows ∧ - Z.max 0 cols < col s ≤ Z.max 0 cols.

#[global] Instance addressable_dec rows cols s : Decision (addressable rows cols s).
Proof. unfold addressable. apply _. Defined.

Definition wrap (n i : Z) : Z := if decide (i ≤ 0) then i + Z.max 0 n else i.

Definition wrap_seat (rows cols : Z) (p : Seat * str) : Seat * str :=
  (mkSeat (wrap rows (row p.1)) (wrap cols (col p.1)), p.2).

(** The lines [main] prints for the assignments, one per pair. *)
Definition list_lines (assignments : list (Seat * str)) : str :=
  concat ((λ p, label p.1 ++ lit ": " ++ p.2 ++ [10%N]) <$> assignments).

(** The whole output of a successful run of [main]. *)
Definition report (assignments : list (Seat * str)) : str :=
  lit "Seating assignments:" ++ [10%N] ++
  list_lines assignments ++
  [10%N] ++ lit "Room view:" ++ [10%N] ++
  rendered_grid assignments 7 9 ++ [10%N].

(** * Properties *)

(** ** Seats of the grid *)

Lemma bind_singleton_fmap {A B} (f : A → B) (l : list A) :
  (l ≫= λ x, [f x]) = f <$> l.
Proof. induction l as [|x l IH]; csimpl; [done|]. by rewrite IH. Qed.

Lemma all_seats_rows rows cols :
  all_seats rows cols = range 1 (rows + 1) ≫= λ r, mkSeat r <$> range 1 (cols + 1).
Proof.
  unfold all_seats. apply list_bind_ext; [|done].
  intros r. apply bind_singleton_fmap.
Qed.

Lemma elem_of_range a b i : i ∈ range a b ↔ a ≤ i < b.
Proof. unfold range. rewrite elem_of_seqZ. lia. Qed.

Lemma elem_of_all_seats rows cols s :
  s ∈ all_seats rows cols ↔ in_grid rows cols s.
Proof.
  rewrite all_seats_rows, list_elem_of_bind. unfold in_grid. split.
  - intros (r & Hs & Hr). apply list_elem_of_fmap in Hs as (c & -> & Hc).
    apply elem_of_range in Hr, Hc. simpl. lia.
  - intros [Hr Hc]. exists (row s). split.
    + apply list_elem_of_fmap. exists (col s). split; [by destruct s|].
      apply elem_of_range. lia.
    + apply elem_of_range. lia.
Qed.

Lemma NoDup_all_seats rows cols : NoDup (all_seats rows cols).
Proof.
  rewrite all_seats_rows. apply NoDup_bind.
  - intros r1 r2 s _ _ H1 H2.
    apply list_elem_of_fmap in H1 as (c1 & -> & _).
    apply list_elem_of_fmap in H2 as (c2 & [= -> _] & _). done.
  - intros r _. apply NoDup_fmap_2; [|apply NoDup_seqZ].
    by intros c1 c2 [= ->].
  - apply NoDup_seqZ.
Qed.

Lemma length_bind_uniform {A B} (f : A → list B) (n : nat) (l : list A) :
  (∀ x, length (f x) = n) → length (l ≫= f) = (length l * n)%nat.
Proof.
  intros Hf. induction l as [|x l IH]; csimpl; [done|].
  rewrite length_app, Hf, IH. lia.
Qed.

Lemma length_all_seats rows cols :
  length (all_seats rows cols) = (Z.to_nat rows * Z.to_nat cols)%nat.
Proof.
  rewrite all_seats_rows.
  rewrite (length_bind_uniform _ (Z.to_nat cols)).
  - unfold range. rewrite length_seqZ. f_equal. lia.
  - intros r. unfold range. rewrite length_fmap, length_seqZ. lia.
Qed.

(** Position [k] of a list of equally long chunks lies in chunk [k / n]
    at offset [k mod n]. *)
Lemma lookup_bind_uniform {A B} (f : A → list B) (n : nat) (l : list A) (k : nat) :
  (∀ x, length (f x) = n) → (0 < n)%nat →
  (l ≫= f) !! k = l !! (k / n)%nat ≫= λ x, f x !! (k mod n)%nat.
Proof.
  intros Hf Hn. revert k. induction l as [|x l IH]; intros k; csimpl.
  { by rewrite !lookup_nil. }
  destruct (decide (k < n)%nat) as [Hk|Hk].
  - rewrite lookup_app_l by (rewrite Hf; lia).
    rewrite Nat.div_small, Nat.mod_small by lia. done.
  - rewrite lookup_app_r by (rewrite Hf; lia). rewrite Hf, IH.
    assert (k / n = S ((k - n) / n) ∧ k mod n = (k - n) mod n)%nat as [-> ->];
      [|done].
    replace k with ((k - n) + 1 * n)%nat at 1 3 by lia.
    rewrite Nat.div_add, Nat.Div0.mod_add by lia. lia.
Qed.

(** Row-major enumeration: the seat at position [k]. *)
Lemma lookup_all_seats rows cols (k : nat) :
  (k < Z.to_nat rows * Z.to_nat cols)%nat →
  all_seats rows cols !! k
  = Some (mkSeat (Z.of_nat k / cols + 1) (Z.of_nat k mod cols + 1)).
Proof.
  intros Hk.
  assert (0 < Z.to_nat cols)%nat as Hc by nia.
  assert (k / Z.to_nat cols < Z.to_nat rows)%nat as Hq.
  { apply Nat.Div0.div_lt_upper_bound. lia. }
  pose proof (Nat.mod_upper_bound k (Z.to_nat cols) ltac:(lia)) as Hm.
  rewrite all_seats_rows, (lookup_bind_uniform _ (Z.to_nat cols)); [|intros r|lia].
  2:{ unfold range. rewrite length_fmap, length_seqZ. lia. }
  unfold range. rewrite lookup_seqZ_lt by lia. simpl.
  rewrite list_lookup_fmap, lookup_seqZ_lt by lia. simpl.
  rewrite Nat2Z.inj_div, Nat2Z.inj_mod, Z2Nat.id by lia.
  f_equal. f_equal; lia.
Qed.

Lemma blocked_set_empty_available rows cols blocked :
  blocked_set blocked = ∅ → available_seats rows cols blocked = all_seats rows cols.
Proof.
  intros He. unfold available_seats. rewrite He.
  induction (all_seats rows cols) as [|s l IH]; [done|].
  rewrite filter_cons_True by set_solver. by rewrite IH.
Qed.

Lemma elem_of_available_seats rows cols blocked s :
  s ∈ available_seats rows cols blocked ↔
  in_grid rows cols s ∧ s ∉ blocked_set blocked.
Proof.
  unfold available_seats.
  rewrite list_elem_of_filter, elem_of_all_seats. tauto.
Qed.

Lemma NoDup_available_seats rows cols blocked :
  NoDup (available_seats rows cols blocked).
Proof. apply NoDup_filter, NoDup_all_seats. Qed.

(** ** The shuffle *)

Lemma swap_Ok {A} (i j : nat) (x : list A) :
  (i < length x)%nat → (j < length x)%nat →
  ∃ x', swap i j x = Ok x' ∧ x' ≡ₚ x.
Proof.
  intros Hi Hj. unfold swap.
  destruct (lookup_lt_is_Some_2 x i Hi) as [xi Hxi].
  destruct (lookup_lt_is_Some_2 x j Hj) as [xj Hxj].
  rewrite Hxi, Hxj. eexists; split; [done|].
  by apply Permutation_insert_swap.
Qed.

Lemma elem_of_shuffle_indices n i :
  i ∈ shuffle_indices n → (1 ≤ i < n)%nat.
Proof.
  unfold shuffle_indices. rewrite elem_of_reverse, elem_of_seq. lia.
Qed.

Section AssignerProps.
Variable Rng : Type.
Variable seed_rng : Z → Rng.
Variable randbelow : Rng → nat → nat * Rng.

(** [_randbelow(n)] lies in [[0, n)]. *)
Hypothesis randbelow_lt : ∀ g n, (0 < n)%nat → ((randbelow g n).1 < n)%nat.


Lemma shuffle_loop_Ok {A} idx g (x : list A) :
  Forall (λ i, i < length x)%nat idx →
  ∃ x', shuffle_loop randbelow idx g x = Ok x' ∧ x' ≡ₚ x.
Proof.
  revert g x. induction idx as [|i idx IH]; intros g x Hidx; simpl.
  { by exists x. }
  apply Forall_cons in Hidx as [Hi Hidx].
  pose proof (randbelow_lt g (i + 1) ltac:(lia)) as Hj.
  destruct (randbelow g (i + 1)) as [j g']. simpl in Hj.
  destruct (swap_Ok i j x) as (x1 & -> & Hx1); [lia..|]. simpl.
  destruct (IH g' x1) as (x' & -> & Hx').
  { by rewrite (Permutation_length Hx1). }
  exists x'. split; [done|]. by rewrite Hx'.
Qed.

Lemma shuffle_Ok {A} g (x : list A) :
  ∃ x', shuffle randbelow g x = Ok x' ∧ x' ≡ₚ x.
Proof.
  apply shuffle_loop_Ok, Forall_forall. intros i Hi.
  apply elem_of_shuffle_indices in Hi. lia.
Qed.

(** Whenever the capacity check passes, the result pairs the available
    seats with the shuffled students. *)
Lemma assign_seats_fits students rows cols blocked seed os :
  (length students ≤ length (available_seats rows cols blocked))%nat →
  ∃ shuffled,
    shuffle randbelow (Random seed_rng seed os) students = Ok shuffled ∧
    shuffled ≡ₚ students ∧
    assign_seats seed_rng randbelow students rows cols blocked seed os
    = Ok (zip (available_seats rows cols blocked) shuffled).
Proof.
  intros Hfit. unfold assign_seats.
  rewrite decide_False by lia.
  destruct (shuffle_Ok (Random seed_rng seed os) students)
    as (shuffled & Hs & Hp).
  exists shuffled. by rewrite Hs.
Qed.

Lemma assign_seats_Ok_inv students rows cols blocked seed os pairs :
  assign_seats seed_rng randbelow students rows cols blocked seed os = Ok pairs →
  ∃ shuffled,
    shuffle randbelow (Random seed_rng seed os) students = Ok shuffled ∧
    (length students ≤ length (available_seats rows cols blocked))%nat ∧
    pairs = zip (available_seats rows cols blocked) shuffled.
Proof.
  unfold assign_seats. case_decide as Hc; [done|].
  destruct (shuffle randbelow _ students) as [shuffled|e]; simpl; [|done].
  intros [= <-]. exists shuffled. split_and!; [done|lia|done].
Qed.

Lemma fst_zip_take {A B} (l : list A) (k : list B) :
  (zip l k).*1 = take (length k) l.
Proof.
  revert k. induction l as [|a l IH]; intros [|b k]; simpl; [done..|].
  by rewrite IH.
Qed.

(** *** The store-level functions against the value-level ones *)

Lemma swap_st_spec i j x (h : gmap loc (list str)) l :
  h !! x = Some l →
  swap_st i j x h
  = match swap i j l with
    | Ok l' => (Ok (), <[x := l']> h)
    | Raise e => (Raise e, h)
    end.
Proof.
  intros Hx. apply lookup_total_correct in Hx as Hxt.
  unfold swap_st, swap, mbind, St_bind, getitem_st. rewrite Hxt.
  destruct (l !! j) as [xj|] eqn:Hj; [|done]. rewrite Hxt.
  destruct (l !! i) as [xi|] eqn:Hi; [|done].
  apply lookup_lt_Some in Hi, Hj.
  unfold setitem_st. rewrite Hxt, decide_True by done.
  rewrite lookup_total_insert_eq, decide_True by (by rewrite length_insert).
  by rewrite insert_insert_eq.
Qed.

Lemma shuffle_loop_st_spec idx g x (h : gmap loc (list str)) l :
  h !! x = Some l →
  ∃ l', shuffle_loop_st randbelow idx g x h
        = (shuffle_loop randbelow idx g l ≫= λ _, Ok (), <[x := l']> h) ∧
        ∀ l2, shuffle_loop randbelow idx g l = Ok l2 → l' = l2.
Proof.
  revert g h l. induction idx as [|i idx IH]; intros g h l Hx; simpl.
  { exists l. split; [|congruence]. by rewrite insert_id. }
  destruct (randbelow g (i + 1)) as [j g'].
  unfold mbind at 1, St_bind. rewrite (swap_st_spec _ _ _ _ l Hx).
  destruct (swap i j l) as [l1|e]; simpl.
  - destruct (IH g' (<[x := l1]> h) l1) as (l' & -> & Hl').
    { apply lookup_insert_eq. }
    exists l'. by rewrite insert_insert_eq.
  - exists l. split; [|done]. by rewrite insert_id.
Qed.

(** Running the store-level assigner on a store that holds [students] at
    [p] computes the value-level result and leaves every existing list
    object as it was. *)
Lemma assign_seats_st_spec p (h : gmap loc (list str)) students
    rows cols blocked seed os :
  h !! p = Some students →
  ∃ h', assign_seats_st seed_rng randbelow p rows cols blocked seed os h
        = (assign_seats seed_rng randbelow students rows cols blocked seed os, h') ∧
        ∀ q, is_Some (h !! q) → h' !! q = h !! q.
Proof.
  intros Hp. apply lookup_total_correct in Hp as Hpt.
  unfold assign_seats_st, assign_seats.
  unfold mbind at 1, St_bind, len_st. rewrite Hpt.
  case_decide; [by exists h|].
  unfold mbind at 1, list_st. rewrite Hpt.
  set (y := fresh (dom h)). set (h1 := <[y := students]> h).
  assert (h1 !! y = Some students) as Hy by apply lookup_insert_eq.
  unfold shuffle_st, len_st, read_st, mbind, mret, St_bind, St_ret. cbv beta.
  rewrite (lookup_total_correct _ _ _ Hy).
  destruct (shuffle_loop_st_spec (shuffle_indices (length students))
              (Random seed_rng seed os) y h1 students Hy)
    as (l' & -> & Hl').
  assert (∀ q, is_Some (h !! q) → <[y := l']> h1 !! q = h !! q) as Hframe.
  { intros q Hq. assert (q ≠ y).
    { intros ->. apply elem_of_dom in Hq. by apply is_fresh in Hq. }
    unfold h1. by rewrite !lookup_insert_ne. }
  exists (<[y := l']> h1). split; [|done].
  unfold shuffle, mbind.
  destruct (shuffle_loop randbelow _ _ students) as [l2|e]; simpl; [|done].
  by rewrite lookup_total_insert_eq, (Hl' l2 eq_refl).
Qed.

Lemma pairs_of_fit (available : list Seat) (shuffled students : list str) :
  shuffled ≡ₚ students → (length students ≤ length available)%nat →
  let pairs := zip available shuffled in
  length pairs = length students ∧
  pairs.*1 = take (length students) available ∧
  pairs.*2 = shuffled.
Proof.
  intros Hp Hfit. apply Permutation_length in Hp. simpl.
  rewrite length_zip, fst_zip_take, snd_zip, Hp by lia.
  split_and!; [lia|done..].
Qed.

Lemma available_seats_filter_in_grid rows cols (b : list (Z * Z)) :
  available_seats rows cols (Some b)
  = available_seats rows cols
      (Some (filter (λ rc, in_grid rows cols (mkSeat rc.1 rc.2)) b)).
Proof.
  unfold available_seats.
  pose proof (λ s, proj1 (elem_of_all_seats rows cols s)) as Hall.
  induction (all_seats rows cols) as [|s l IH]; [done|].
  assert (s ∉ blocked_set (Some b) ↔
          s ∉ blocked_set (Some (filter (λ rc, in_grid rows cols (mkSeat rc.1 rc.2)) b)))
    as Hiff.
  { unfold blocked_set. simpl. rewrite !elem_of_list_to_set.
    apply not_iff_compat. rewrite !list_elem_of_fmap. split.
    - intros (rc & -> & Hrc). exists rc. split; [done|].
      apply list_elem_of_filter. split; [|done]. apply Hall. left.
    - intros (rc & -> & Hrc). exists rc. split; [done|].
      by apply list_elem_of_filter in Hrc as [_ ?]. }
  specialize (IH (λ s' Hs', Hall s' (list_elem_of_further _ _ _ Hs'))).
  destruct (decide (s ∉ blocked_set (Some b))) as [Hs|Hs].
  - rewrite !filter_cons_True by tauto. by rewrite IH.
  - rewrite !filter_cons_False by tauto. done.
Qed.

(** *** The claims about the assigner *)

(** C1. When the students fit into the available seats, [assign_seats]
    returns one pair per student: the number of pairs is the number of
    students, no seat occurs twice, the seats used are the first available
    ones (the trailing seats stay unassigned), and the students of the
    pairs are the input students, each as often as in the input. *)
Theorem assign_seats_one_seat_per_student students rows cols blocked seed os :
  (length students ≤ length (available_seats rows cols blocked))%nat →
  ∃ pairs,
    assign_seats seed_rng randbelow students rows cols blocked seed os = Ok pairs ∧
    length pairs = length students ∧
    NoDup pairs.*1 ∧
    pairs.*1 = take (length students) (available_seats rows cols blocked) ∧
    pairs.*2 ≡ₚ students ∧
    ∀ x, length (filter (x =.) pairs.*2) = length (filter (x =.) students).
Proof.
  intros Hfit.
  destruct (assign_seats_fits students rows cols blocked seed os Hfit)
    as (shuffled & _ & Hp & ->).
  destruct (pairs_of_fit _ shuffled students Hp Hfit) as (Hlen & Hfst & Hsnd).
  eexists. split; [done|]. rewrite Hlen, Hfst, Hsnd. split_and!; try done.
  - apply (sublist_NoDup _ _ (NoDup_available_seats rows cols blocked)), sublist_take.
  - intros x. by rewrite Hp.
Qed.

(** C2. [assign_seats] raises the capacity error exactly when there are
    more students than available seats, and it raises nothing else; one
    student too many raises it, and as many students as available seats
    succeeds with every available seat assigned. *)
Theorem assign_seats_capacity_error students rows cols blocked seed os :
  let available := available_seats rows cols blocked in
  let outcome := assign_seats seed_rng randbelow students rows cols blocked seed os in
  (outcome = Raise capacity_error ↔ (length available < length students)%nat) ∧
  (∀ e, outcome = Raise e → e = capacity_error) ∧
  (length students = S (length available) → outcome = Raise capacity_error) ∧
  (length students = length available →
   ∃ pairs, outcome = Ok pairs ∧ pairs.*1 = available).
Proof.
  intros available outcome.
  assert ((length available < length students)%nat → outcome = Raise capacity_error)
    as Hover.
  { intros Hlt. unfold outcome, assign_seats. by rewrite decide_True. }
  assert ((length students ≤ length available)%nat →
          ∃ pairs, outcome = Ok pairs ∧
                   pairs.*1 = take (length students) available) as Hfit.
  { intros Hle.
    destruct (assign_seats_fits students rows cols blocked seed os Hle)
      as (shuffled & _ & Hp & Heq).
    destruct (pairs_of_fit _ shuffled students Hp Hle) as (_ & Hfst & _).
    eauto. }
  split_and!.
  - split; [|done]. intros He.
    destruct (decide (length available < length students)%nat) as [|Hn]; [done|].
    destruct Hfit as (pairs & Hp & _); [lia|]. congruence.
  - intros e He.
    destruct (decide (length available < length students)%nat) as [Hlt|Hn].
    + specialize (Hover Hlt). congruence.
    + destruct Hfit as (pairs & Hp & _); [lia|]. congruence.
  - intros Hlen. apply Hover. lia.
  - intros Hlen. destruct Hfit as (pairs & Hp & Hfst); [lia|].
    exists pairs. split; [done|]. by rewrite Hfst, Hlen, firstn_all.
Qed.

(** C3. With an integer seed the result does not depend on the state of
    the operating system's entropy source, and a second call on the store
    left by a first call, with the same seed and the same other arguments,
    returns the same pairs in the same order. *)
Theorem assign_seats_deterministic students rows cols blocked (seed : Z) os1 os2 :
  assign_seats seed_rng randbelow students rows cols blocked (Some seed) os1
  = assign_seats seed_rng randbelow students rows cols blocked (Some seed) os2 ∧
  ∀ (p : loc) (h : gmap loc (list str)),
    h !! p = Some students →
    let first := assign_seats_st seed_rng randbelow p rows cols blocked (Some seed) os1 h in
    let second :=
      assign_seats_st seed_rng randbelow p rows cols blocked (Some seed) os2 first.2 in
    second.1 = first.1.
Proof.
  split; [done|]. intros p h Hp.
  destruct (assign_seats_st_spec p h students rows cols blocked (Some seed) os1 Hp)
    as (h1 & -> & Hh1). simpl.
  assert (h1 !! p = Some students) as Hp1 by (rewrite Hh1; eauto).
  destruct (assign_seats_st_spec p h1 students rows cols blocked (Some seed) os2 Hp1)
    as (h2 & -> & _). done.
Qed.

(** C4. No blocked seat is the seat of a returned pair, and the blocked
    entries that lie outside the grid can be dropped without changing the
    outcome. *)
Theorem assign_seats_blocked students rows cols seed os :
  (∀ blocked pairs,
     assign_seats seed_rng randbelow students rows cols blocked seed os = Ok pairs →
     ∀ r c, (r, c) ∈ default [] blocked → mkSeat r c ∉ pairs.*1) ∧
  (∀ b : list (Z * Z),
     assign_seats seed_rng randbelow students rows cols (Some b) seed os
     = assign_seats seed_rng randbelow students rows cols
         (Some (filter (λ rc, in_grid rows cols (mkSeat rc.1 rc.2)) b)) seed os).
Proof.
  split.
  - intros blocked pairs Hok r c Hrc Hin.
    apply assign_seats_Ok_inv in Hok as (shuffled & _ & _ & ->).
    rewrite fst_zip_take in Hin. apply subseteq_take in Hin.
    apply elem_of_available_seats in Hin as [_ Hnb]. apply Hnb.
    unfold blocked_set. apply elem_of_list_to_set, list_elem_of_fmap.
    by exists (r, c).
  - intros b. unfold assign_seats.
    by rewrite <-available_seats_filter_in_grid.
Qed.

(** C5. The returned pairs are the available seats, in row-major order
    with the blocked seats left out, paired position by position with the
    shuffled students; with no seat blocked the pair at position [k] has
    the seat in row [k div cols + 1] and column [k mod cols + 1]. *)
Theorem assign_seats_row_major students rows cols blocked seed os :
  let available := available_seats rows cols blocked in
  (length students ≤ length available)%nat →
  ∃ shuffled,
    shuffle randbelow (Random seed_rng seed os) students = Ok shuffled ∧
    assign_seats seed_rng randbelow students rows cols blocked seed os
    = Ok (zip available shuffled) ∧
    available = filter (λ s, s ∉ blocked_set blocked) (all_seats rows cols) ∧
    (∀ i x, shuffled !! i = Some x →
       ∃ s, available !! i = Some s ∧ zip available shuffled !! i = Some (s, x)) ∧
    (blocked_set blocked = ∅ →
     ∀ k x, shuffled !! k = Some x →
       zip available shuffled !! k
       = Some (mkSeat (Z.of_nat k / cols + 1) (Z.of_nat k mod cols + 1), x)).
Proof.
  intros available Hfit.
  destruct (assign_seats_fits students rows cols blocked seed os Hfit)
    as (shuffled & Hs & Hp & Heq).
  apply Permutation_length in Hp.
  exists shuffled. split_and!; [done..| |].
  - intros i x Hx. apply lookup_lt_Some in Hx as Hi.
    destruct (lookup_lt_is_Some_2 available i) as [s Hsi]; [lia|].
    exists s. split; [done|].
    by rewrite lookup_zip_with, Hsi, Hx.
  - intros Hempty k x Hx. apply lookup_lt_Some in Hx as Hk.
    unfold available in *.
    rewrite blocked_set_empty_available in * by done.
    rewrite length_all_seats in Hfit.
    rewrite lookup_zip_with, lookup_all_seats, Hx by lia. done.
Qed.

(** C6. The call leaves the caller's list alone: in the store after the
    call the list object passed as [students] has the elements it had
    before, whether the call returns or raises; the value returned is the
    one [assign_seats] computes from those elements. *)
Theorem assign_seats_keeps_students p (h : gmap loc (list str)) students
    rows cols blocked seed os :
  h !! p = Some students →
  let run := assign_seats_st seed_rng randbelow p rows cols blocked seed os h in
  run.2 !! p = Some students ∧
  (∀ q, is_Some (h !! q) → run.2 !! q = h !! q) ∧
  run.1 = assign_seats seed_rng randbelow students rows cols blocked seed os.
Proof.
  intros Hp.
  destruct (assign_seats_st_spec p h students rows cols blocked seed os Hp)
    as (h' & -> & Hframe). simpl.
  split_and!; [|done..]. rewrite Hframe; eauto.
Qed.

End AssignerProps.

(** ** The grid renderer *)

Lemma py_index_in_range (n : nat) (i : Z) :
  0 ≤ i < Z.of_nat n → py_index n i = Some (Z.to_nat i).
Proof. intros Hi. unfold py_index. by rewrite decide_True. Qed.

Lemma cell_at_insert (grid : list (list str)) ri ci line v i j :
  grid !! ri = Some line → (ci < length line)%nat →
  cell_at (<[ri := <[ci := v]> line]> grid) i j
  = if decide (i = ri ∧ j = ci) then Some v else cell_at grid i j.
Proof.
  intros Hri Hci. apply lookup_lt_Some in Hri as Hlt. unfold cell_at.
  destruct (decide (i = ri)) as [->|Hi].
  - rewrite list_lookup_insert_eq, Hri by done. simpl.
    destruct (decide (j = ci)) as [->|Hj].
    + rewrite list_lookup_insert_eq, decide_True by done. done.
    + rewrite list_lookup_insert_ne, decide_False by (done || tauto). done.
  - rewrite list_lookup_insert_ne, decide_False by (done || tauto). done.
Qed.

Lemma grid_set_in_grid R C grid s v :
  shape R C grid → in_grid (Z.of_nat R) (Z.of_nat C) s →
  ∃ grid', grid_set grid (row s - 1) (col s - 1) v = Ok grid' ∧
           shape R C grid' ∧
           ∀ i j, cell_at grid' i j
                  = if decide (s = mkSeat (Z.of_nat i + 1) (Z.of_nat j + 1))
                    then Some v else cell_at grid i j.
Proof.
  intros [Hlen Hlines] [Hr Hc]. unfold grid_set.
  rewrite py_index_in_range by lia.
  destruct (lookup_lt_is_Some_2 grid (Z.to_nat (row s - 1))) as [line Hline];
    [lia|].
  rewrite Hline.
  assert (length line = C) as HC.
  { by apply (Forall_lookup_1 _ _ _ _ Hlines Hline). }
  rewrite py_index_in_range by lia.
  eexists. split; [done|]. split.
  - split; [by rewrite length_insert|].
    apply Forall_insert; [done|]. by rewrite length_insert.
  - intros i j. rewrite cell_at_insert by (done || lia).
    destruct s as [r c]. simpl in *.
    apply decide_ext. split.
    + intros [-> ->]. f_equal; lia.
    + intros [= -> ->]. lia.
Qed.

Lemma fill_grid_in_grid R C assignments :
  ∀ grid, shape R C grid →
  Forall (in_grid (Z.of_nat R) (Z.of_nat C)) assignments.*1 →
  ∃ grid', fill_grid assignments grid = Ok grid' ∧
           shape R C grid' ∧
           ∀ i j, cell_at grid' i j
                  = match stored assignments
                            (mkSeat (Z.of_nat i + 1) (Z.of_nat j + 1)) with
                    | Some x => Some x
                    | None => cell_at grid i j
                    end.
Proof.
  induction assignments as [|[s v] rest IH]; intros grid Hshape Hin; simpl.
  { by exists grid. }
  apply Forall_cons in Hin as [Hs Hrest].
  destruct (grid_set_in_grid R C grid s v Hshape Hs) as (g1 & -> & Hshape1 & Hg1).
  simpl. destruct (IH g1 Hshape1 Hrest) as (g' & -> & Hshape' & Hg').
  exists g'. split_and!; [done..|].
  intros i j. rewrite Hg', Hg1.
  destruct (stored rest _); [done|]. by case_decide.
Qed.

Lemma in_grid_to_nat rows cols (l : list Seat) :
  Forall (in_grid rows cols) l →
  Forall (in_grid (Z.of_nat (Z.to_nat rows)) (Z.of_nat (Z.to_nat cols))) l.
Proof.
  intros Hl. eapply Forall_impl; [exact Hl|].
  intros s [??]. unfold in_grid. lia.
Qed.

Lemma shape_replicate R C : shape R C (replicate R (replicate C [])).
Proof.
  split; [apply length_replicate|].
  apply Forall_replicate, length_replicate.
Qed.

Lemma cell_at_replicate R C i j :
  (i < R)%nat → (j < C)%nat → cell_at (replicate R (replicate C [])) i j = Some [].
Proof.
  intros Hi Hj. unfold cell_at.
  rewrite lookup_replicate_2 by done. simpl. by rewrite lookup_replicate_2.
Qed.

Lemma cell_rendered assignments i j :
  cell (1 + Z.of_nat i) (1 + Z.of_nat j)
    (default [] (stored assignments (mkSeat (Z.of_nat i + 1) (Z.of_nat j + 1))))
  = rendered_cell assignments (1 + Z.of_nat i) (1 + Z.of_nat j).
Proof.
  unfold cell, rendered_cell, label, display. simpl.
  replace (Z.of_nat i + 1) with (1 + Z.of_nat i) by lia.
  replace (Z.of_nat j + 1) with (1 + Z.of_nat j) by lia.
  rewrite <-!(assoc_L (++)). do 5 f_equal.
  by destruct (stored _ _) as [x|].
Qed.

(** The renderer on assignments whose seats lie in the grid. *)
Lemma format_grid_in_grid assignments rows cols :
  Forall (in_grid rows cols) assignments.*1 →
  format_grid assignments rows cols = Ok (rendered_grid assignments rows cols).
Proof.
  intros Hin. apply in_grid_to_nat in Hin. unfold format_grid.
  destruct (fill_grid_in_grid _ _ assignments _
              (shape_replicate (Z.to_nat rows) (Z.to_nat cols)) Hin)
    as (g & -> & [Hlen Hlines] & Hg).
  simpl. unfold rendered_grid. do 2 f_equal.
  apply list_eq. intros i.
  rewrite list_lookup_imap, list_lookup_fmap. unfold range.
  destruct (decide (i < Z.to_nat rows)%nat) as [Hi|Hi].
  2:{ rewrite lookup_ge_None_2, lookup_seqZ_ge by lia. done. }
  destruct (lookup_lt_is_Some_2 g i) as [line Hline]; [lia|].
  rewrite Hline, lookup_seqZ_lt by lia. simpl. f_equal.
  unfold grid_line. f_equal.
  assert (length line = Z.to_nat cols) as HC.
  { by apply (Forall_lookup_1 _ _ _ _ Hlines Hline). }
  apply list_eq. intros j.
  rewrite list_lookup_imap, list_lookup_fmap.
  destruct (decide (j < Z.to_nat cols)%nat) as [Hj|Hj].
  2:{ rewrite lookup_ge_None_2, lookup_seqZ_ge by lia. done. }
  rewrite lookup_seqZ_lt by lia. simpl.
  specialize (Hg i j). unfold cell_at in Hg at 1. rewrite Hline in Hg.
  simpl in Hg. rewrite Hg, cell_at_replicate by done.
  rewrite <-cell_rendered. by destruct (stored _ _).
Qed.

Lemma stored_app a b s :
  stored (a ++ b) s
  = match stored b s with
    | Some y => Some y
    | None => stored a s
    end.
Proof.
  induction a as [|[s' x] a IH]; simpl.
  - by destruct (stored b s).
  - rewrite IH. by destruct (stored b s).
Qed.

Lemma stored_None a s : s ∉ a.*1 → stored a s = None.
Proof.
  induction a as [|[s' x] a IH]; simpl; [done|].
  intros Hs. apply not_elem_of_cons in Hs as [Hne Hs].
  rewrite IH by done. by rewrite decide_False.
Qed.

(** C8. For assignments whose seats lie in the grid, [format_grid] prints
    the [rows] x [cols] cells row by row, the cells of a row joined by
    [" | "] and the rows by a newline; a cell shows its label, [": "] and
    the student of the last pair naming its seat when that string is not
    empty, and the placeholder ["-"] when the seat is unassigned or the
    string is empty. *)
Theorem format_grid_renders assignments rows cols :
  Forall (in_grid rows cols) assignments.*1 →
  format_grid assignments rows cols
  = Ok (join (lit (String "010" ""))
          ((λ r, join (lit " | ")
                   (rendered_cell assignments r <$> range 1 (cols + 1)))
             <$> range 1 (rows + 1))) ∧
  (∀ r c x, stored assignments (mkSeat r c) = Some x → x ≠ [] →
     rendered_cell assignments r c
     = lit "R" ++ int_to_str r ++ lit "C" ++ int_to_str c ++ lit ": " ++ x) ∧
  (∀ r c, stored assignments (mkSeat r c) = None ∨
          stored assignments (mkSeat r c) = Some [] →
     rendered_cell assignments r c
     = lit "R" ++ int_to_str r ++ lit "C" ++ int_to_str c ++ lit ": -").
Proof.
  intros Hin. split; [by apply format_grid_in_grid|].
  unfold rendered_cell, label. simpl. split.
  - intros r c x -> Hx. rewrite decide_False by done.
    by rewrite <-!(assoc_L (++)).
  - intros r c [-> | ->]; by rewrite <-!(assoc_L (++)).
Qed.

(** C9. A pair whose student is the empty string can be removed without
    changing the rendering, provided the seats lie in the grid and no
    earlier pair names the same seat; when no later pair names the seat
    either, its cell shows the placeholder. *)
Theorem format_grid_empty_student rows cols before s after :
  Forall (in_grid rows cols) (before ++ (s, []) :: after).*1 →
  s ∉ before.*1 →
  format_grid (before ++ (s, []) :: after) rows cols
  = format_grid (before ++ after) rows cols ∧
  format_grid (before ++ (s, []) :: after) rows cols
  = Ok (rendered_grid (before ++ (s, []) :: after) rows cols) ∧
  (s ∉ after.*1 →
   rendered_cell (before ++ (s, []) :: after) (row s) (col s)
   = label s ++ lit ": -").
Proof.
  intros Hin Hs.
  assert (Forall (in_grid rows cols) (before ++ after).*1) as Hin'.
  { rewrite fmap_app in *. apply Forall_app in Hin as [H1 H2].
    apply Forall_cons in H2 as [_ H2]. by apply Forall_app. }
  assert (∀ r c, rendered_cell (before ++ (s, []) :: after) r c
                 = rendered_cell (before ++ after) r c) as Hcell.
  { intros r c. unfold rendered_cell. rewrite !stored_app. simpl.
    destruct (stored after _); [done|].
    case_decide as Heq; [|done]. subst s. by rewrite stored_None. }
  rewrite !format_grid_in_grid by done. split_and!; [|done|].
  - unfold rendered_grid. do 2 f_equal.
    apply list_fmap_ext. intros _ r _. f_equal.
    apply list_fmap_ext. intros _ c _. apply Hcell.
  - intros Hafter. unfold rendered_cell. destruct s as [r c]. simpl.
    rewrite stored_app. simpl. rewrite stored_None, decide_True by done.
    done.
Qed.

(** C10. Every seat that [assign_seats] returns lies in the grid, and
    [format_grid] with the same [rows] and [cols] renders the result
    without an [IndexError]. *)
Theorem assign_seats_in_grid {Rng} (seed_rng : Z → Rng)
    (randbelow : Rng → nat → nat * Rng) students rows cols blocked seed os pairs :
  assign_seats seed_rng randbelow students rows cols blocked seed os = Ok pairs →
  Forall (λ s, 1 ≤ row s ≤ rows ∧ 1 ≤ col s ≤ cols) pairs.*1 ∧
  ∃ text, format_grid pairs rows cols = Ok text.
Proof.
  intros Hok.
  assert (Forall (in_grid rows cols) pairs.*1) as Hin.
  { apply assign_seats_Ok_inv in Hok as (shuffled & _ & _ & ->).
    rewrite fst_zip_take. apply Forall_forall. intros s Hs.
    apply subseteq_take in Hs.
    by apply elem_of_available_seats in Hs as [? _]. }
  split; [done|]. eexists. by apply format_grid_in_grid.
Qed.

(** The cell of an assigned empty string is not the stored string, and a
    seat outside the grid stops the rendering. *)
Lemma format_grid_not_as_specified :
  (format_grid [(mkSeat 1 1, [])] 1 1 = Ok (lit "R1C1: -") ∧
   grid_as_specified [(mkSeat 1 1, [])] 1 1 = lit "R1C1: " ∧
   format_grid [(mkSeat 1 1, [])] 1 1
   ≠ Ok (grid_as_specified [(mkSeat 1 1, [])] 1 1)) ∧
  format_grid [(mkSeat 2 1, lit "A")] 1 1 = Raise IndexError.
Proof. by vm_compute. Qed.

(** Removing a pair with the empty string brings back the student of an
    earlier pair for the same seat, and lets a rendering succeed that the
    pair's seat, outside the grid, made fail. *)
Lemma format_grid_empty_student_removed :
  (format_grid [(mkSeat 1 1, lit "Bob"); (mkSeat 1 1, [])] 1 1
   = Ok (lit "R1C1: -") ∧
   format_grid [(mkSeat 1 1, lit "Bob")] 1 1 = Ok (lit "R1C1: Bob") ∧
   format_grid [(mkSeat 1 1, lit "Bob"); (mkSeat 1 1, [])] 1 1
   ≠ format_grid [(mkSeat 1 1, lit "Bob")] 1 1) ∧
  (format_grid [(mkSeat 2 1, [])] 1 1 = Raise IndexError ∧
   format_grid [] 1 1 = Ok (lit "R1C1: -") ∧
   format_grid [(mkSeat 2 1, [])] 1 1 ≠ format_grid [] 1 1).
Proof. by vm_compute. Qed.

(** ** The loader *)

Lemma linebreaks_whitespace c : is_linebreak c → is_space c.
Proof.
  assert (Forall is_space linebreaks) as Hall by compute_done.
  intros Hc. by apply (proj1 (Forall_forall _ _) Hall).
Qed.

Lemma blank_is_space l : Forall blank l → Forall is_space l.
Proof. intros Hl. eapply Forall_impl; [exact Hl|]. by intros c [? _]. Qed.

Lemma blank_no_break l : Forall blank l → Forall (λ c, ¬ is_linebreak c) l.
Proof. intros Hl. eapply Forall_impl; [exact Hl|]. by intros c [_ ?]. Qed.

Lemma word_no_break l :
  Forall (λ c, ¬ is_space c) l → Forall (λ c, ¬ is_linebreak c) l.
Proof.
  intros Hl. eapply Forall_impl; [exact Hl|].
  intros c Hc Hb. by apply Hc, linebreaks_whitespace.
Qed.

(** *** [strip] *)

Lemma lstrip_app_space ws s : Forall is_space ws → lstrip (ws ++ s) = lstrip s.
Proof.
  induction 1 as [|c ws Hc _ IH]; simpl; [done|]. by rewrite decide_True.
Qed.

Lemma lstrip_space ws : Forall is_space ws → lstrip ws = [].
Proof.
  intros Hws. rewrite <-(app_nil_r ws). by rewrite lstrip_app_space.
Qed.

Lemma lstrip_decompose s : ∃ ws, Forall is_space ws ∧ s = ws ++ lstrip s.
Proof.
  induction s as [|c s (ws & Hws & IH)]; simpl.
  { by exists []. }
  case_decide as Hc.
  - exists (c :: ws). split; [by constructor|]. simpl. by f_equal.
  - by exists [].
Qed.

Lemma strip_space s : Forall is_space s → strip s = [].
Proof. intros Hs. unfold strip. by rewrite (lstrip_space s). Qed.

(** *** [split] *)

Lemma split_from_word cur t s :
  Forall (λ c, ¬ is_space c) t → split_from cur (t ++ s) = split_from (cur ++ t) s.
Proof.
  intros Ht. revert cur.
  induction Ht as [|c t Hc _ IH]; intros cur; simpl.
  { by rewrite app_nil_r. }
  rewrite decide_False by done. rewrite IH. by rewrite <-(assoc_L (++)).
Qed.

Lemma split_from_space ws s :
  Forall is_space ws → split_from [] (ws ++ s) = split_from [] s.
Proof.
  induction 1 as [|c ws Hc _ IH]; simpl; [done|]. by rewrite decide_True.
Qed.

Lemma split_from_space_after cur ws s :
  cur ≠ [] → ws ≠ [] → Forall is_space ws →
  split_from cur (ws ++ s) = cur :: split_from [] s.
Proof.
  intros Hcur Hne Hws. destruct Hws as [|c ws Hc Hws]; [done|]. simpl.
  rewrite decide_True, decide_False by done. by rewrite split_from_space.
Qed.

Lemma split_from_trailing cur s ws :
  Forall is_space ws → split_from cur (s ++ ws) = split_from cur s.
Proof.
  intros Hws. revert cur. induction s as [|c s IH]; intros cur; simpl.
  - destruct Hws as [|w ws Hw Hws]; simpl; [done|].
    rewrite decide_True by done.
    pose proof (split_from_space ws [] Hws) as Hnil.
    rewrite app_nil_r in Hnil. simpl in Hnil. rewrite Hnil.
    by case_decide.
  - by rewrite !IH.
Qed.

Lemma split_strip s : split (strip s) = split s.
Proof.
  unfold split, strip.
  destruct (lstrip_decompose s) as (ws1 & Hws1 & Hs).
  destruct (lstrip_decompose (reverse (lstrip s))) as (ws2 & Hws2 & Hr).
  apply (f_equal reverse) in Hr.
  rewrite reverse_involutive, reverse_app in Hr.
  set (r := reverse (lstrip (reverse (lstrip s)))) in *.
  set (s1 := lstrip s) in *. clearbody r s1. subst s s1.
  rewrite split_from_space, split_from_trailing; [done|..|done].
  by apply Forall_reverse.
Qed.

Lemma split_fields fs :
  wf_fields fs → split (concat ((λ f, f.1 ++ f.2) <$> fs)) = fs.*1.
Proof.
  unfold split. induction fs as [|[t sep] fs IH]; [done|].
  intros (Ht & Hword & Hsep & Hnext & Hfs). csimpl.
  rewrite <-(assoc_L (++)), split_from_word by done. rewrite app_nil_l.
  apply blank_is_space in Hsep. destruct fs as [|f fs].
  - csimpl. rewrite app_nil_r.
    pose proof (split_from_trailing t [] sep Hsep) as Hnil.
    rewrite app_nil_l in Hnil. rewrite Hnil. simpl. by rewrite decide_False.
  - rewrite split_from_space_after, IH by (done || by apply Hnext). done.
Qed.

Lemma split_line_text l : wf_layout l → split (line_text l) = (fields l).*1.
Proof.
  intros [Hlead Hfs]. unfold line_text.
  unfold split. rewrite split_from_space by by apply blank_is_space.
  by apply split_fields.
Qed.

Lemma line_text_no_fields l :
  wf_layout l → fields l = [] → strip (line_text l) = [].
Proof.
  intros [Hlead _] Hf. unfold line_text. rewrite Hf. simpl.
  rewrite app_nil_r. by apply strip_space, blank_is_space.
Qed.

Lemma line_text_nil l : wf_layout l → line_text l = [] → fields l = [].
Proof.
  intros [_ Hfs] Hnil. unfold line_text in Hnil.
  apply app_eq_nil in Hnil as [_ Hnil].
  destruct (fields l) as [|[t sep] fs]; [done|]. simpl in *.
  destruct Hfs as (Ht & _). by destruct t.
Qed.

(** *** The loop over the lines *)

Lemma load_lines_layouts ls :
  Forall wf_layout ls →
  ∀ students, load_lines (line_text <$> ls) students
              = Ok (students ++ omap entry ls).
Proof.
  induction 1 as [|l ls Hl _ IH]; intros students; simpl.
  { by rewrite app_nil_r. }
  unfold entry at 1.
  pose proof (split_strip (line_text l)) as Hsplit.
  rewrite split_line_text in Hsplit by done.
  destruct (fields l) as [|f fs] eqn:Hf.
  { rewrite line_text_no_fields by done. simpl. by rewrite IH. }
  rewrite decide_False.
  2:{ intros Hnil. by rewrite Hnil in Hsplit. }
  rewrite Hsplit. destruct fs as [|f' fs]; simpl.
  - by rewrite IH, <-(assoc_L (++)).
  - by rewrite IH, <-(assoc_L (++) students).
Qed.

Lemma split_from_nil_inv cur s :
  split_from cur s = [] → cur = [] ∧ Forall is_space s.
Proof.
  revert cur. induction s as [|c s IH]; intros cur; simpl.
  - by case_decide.
  - case_decide as Hc.
    + case_decide as Hcur; [|done]. intros Hs.
      destruct (IH [] Hs) as [_ ?]. split; [done|]. by constructor.
    + intros Hs. destruct (IH _ Hs) as [Hnil _]. by destruct cur.
Qed.

Lemma split_strip_nonempty s : strip s ≠ [] → split (strip s) ≠ [].
Proof.
  intros Hne Hnil. rewrite split_strip in Hnil.
  apply split_from_nil_inv in Hnil as [_ Hsp]. by rewrite strip_space in Hne.
Qed.

(** The loop never reads [parts[0]] of an empty list: a line that is not
    empty after [strip] has a field. *)
Lemma load_lines_total lines :
  ∀ students, ∃ out, load_lines lines students = Ok out.
Proof.
  induction lines as [|line lines IH]; intros students; simpl; [by eexists|].
  case_decide as Hline; [apply IH|].
  apply split_strip_nonempty in Hline.
  destruct (split (strip line)) as [|p0 ps]; [done|].
  case_decide; apply IH.
Qed.

Lemma load_students_total read_text path text :
  read_text path = Ok text → ∃ students, load_students read_text path = Ok students.
Proof.
  intros Hread. unfold load_students. rewrite Hread. apply load_lines_total.
Qed.

(** *** [splitlines] *)

Lemma splitlines_from_text cur s rest :
  Forall (λ c, ¬ is_linebreak c) s →
  splitlines_from cur (s ++ rest) = splitlines_from (cur ++ s) rest.
Proof.
  intros Hs. revert cur.
  induction Hs as [|c s Hc _ IH]; intros cur; simpl.
  { by rewrite app_nil_r. }
  rewrite decide_False by done. rewrite IH. by rewrite <-(assoc_L (++)).
Qed.

Lemma splitlines_from_end cur e rest :
  e ∈ line_ends → splitlines_from cur (e ++ rest) = cur :: splitlines_from [] rest.
Proof.
  intros He. unfold line_ends in He.
  repeat (apply elem_of_cons in He as [->|He]); [..|by apply elem_of_nil in He];
    by destruct rest.
Qed.

Lemma line_text_no_break l :
  wf_layout l → Forall (λ c, ¬ is_linebreak c) (line_text l).
Proof.
  intros [Hlead Hfs]. unfold line_text.
  apply Forall_app. split; [by apply blank_no_break|].
  induction (fields l) as [|[t sep] fs IH]; simpl; [constructor|].
  destruct Hfs as (_ & Hword & Hsep & _ & Hfs).
  rewrite !Forall_app. split_and!; [by apply word_no_break|by apply blank_no_break|].
  by apply IH.
Qed.

Lemma splitlines_file ls last :
  Forall wf_layout ls.*1 → Forall (.∈ line_ends) ls.*2 → wf_layout last →
  splitlines (file_text ls last)
  = (line_text <$> ls.*1)
    ++ (if decide (line_text last = []) then [] else [line_text last]).
Proof.
  intros Hls Hends Hlast. unfold splitlines, file_text.
  induction ls as [|[l e] ls IH]; simpl.
  - rewrite <-(app_nil_r (line_text last)) at 1.
    by rewrite splitlines_from_text by by apply line_text_no_break.
  - simpl in Hls, Hends.
    apply Forall_cons in Hls as [Hl Hls]. apply Forall_cons in Hends as [He Hends].
    rewrite <-!(assoc_L (++)).
    rewrite splitlines_from_text by by apply line_text_no_break.
    rewrite splitlines_from_end by done. simpl. f_equal. by apply IH.
Qed.

(** C7. For a file made of well laid out lines, [load_students] returns one
    entry per line that has a field, in the order of the lines: a line
    with several fields gives its first field, a space and the other
    fields run together, a line with one field gives that field, and a
    line of whitespace gives nothing.  The line ["007   Jane   Doe"] loads
    as ["007 JaneDoe"] and the line ["Solo"] as ["Solo"]. *)
Theorem load_students_entries read_text path ls last :
  read_text path = Ok (file_text ls last) →
  Forall wf_layout (ls.*1 ++ [last]) →
  Forall (.∈ line_ends) ls.*2 →
  load_students read_text path = Ok (omap entry (ls.*1 ++ [last])) ∧
  load_students (λ _, Ok (lit "007   Jane   Doe")) path = Ok [lit "007 JaneDoe"] ∧
  load_students (λ _, Ok (lit "Solo")) path = Ok [lit "Solo"] ∧
  load_students (λ _, Ok (lit "   ")) path = Ok [].
Proof.
  intros Hread Hwf Hends. split; [|by vm_compute].
  apply Forall_app in Hwf as [Hls Hlast].
  rewrite Forall_singleton in Hlast.
  unfold load_students. rewrite Hread. simpl.
  rewrite splitlines_file by done. case_decide as Hnil.
  - rewrite app_nil_r, load_lines_layouts, omap_app by done. simpl.
    unfold entry. by rewrite (line_text_nil last Hlast Hnil), app_nil_r.
  - change [line_text last] with (line_text <$> [last]).
    rewrite <-fmap_app, load_lines_layouts; [done|].
    apply Forall_app. split; [done|]. by apply Forall_singleton.
Qed.

(** ** The statements on sample inputs *)

Lemma lcg_randbelow_lt g n : (0 < n)%nat → ((lcg_randbelow g n).1 < n)%nat.
Proof. intros Hn. simpl. apply Nat.mod_upper_bound. lia. Qed.

Lemma assign_seats_one_seat_per_student_witness :
  ∃ pairs,
    lcg_assign abc 2 2 (Some [(1, 1)]) (Some 42) 0%N = Ok pairs ∧
    length pairs = 3%nat ∧
    NoDup pairs.*1 ∧
    pairs.*1 = [mkSeat 1 2; mkSeat 2 1; mkSeat 2 2] ∧
    pairs.*2 ≡ₚ abc ∧
    ∀ x, length (filter (x =.) pairs.*2) = length (filter (x =.) abc).
Proof.
  apply (assign_seats_one_seat_per_student N Z.to_N lcg_randbelow
           lcg_randbelow_lt abc 2 2 (Some [(1, 1)]) (Some 42) 0%N).
  vm_compute. lia.
Defined.

Lemma assign_seats_capacity_error_witness :
  lcg_assign abc 1 2 None (Some 42) 0%N = Raise capacity_error ∧
  ∃ pairs, lcg_assign abc 2 2 (Some [(1, 1)]) (Some 42) 0%N = Ok pairs ∧
           pairs.*1 = [mkSeat 1 2; mkSeat 2 1; mkSeat 2 2].
Proof.
  split.
  - apply (assign_seats_capacity_error N Z.to_N lcg_randbelow
             lcg_randbelow_lt abc 1 2 None (Some 42) 0%N).
    reflexivity.
  - apply (assign_seats_capacity_error N Z.to_N lcg_randbelow
             lcg_randbelow_lt abc 2 2 (Some [(1, 1)]) (Some 42) 0%N).
    reflexivity.
Defined.

Lemma assign_seats_row_major_witness :
  ∃ shuffled,
    shuffle lcg_randbelow (Random Z.to_N (Some 42) 0%N) abc = Ok shuffled ∧
    lcg_assign abc 2 2 None (Some 42) 0%N
    = Ok (zip (available_seats 2 2 None) shuffled) ∧
    available_seats 2 2 None
    = filter (λ s, s ∉ blocked_set None) (all_seats 2 2) ∧
    (∀ i x, shuffled !! i = Some x →
       ∃ s, available_seats 2 2 None !! i = Some s ∧
            zip (available_seats 2 2 None) shuffled !! i = Some (s, x)) ∧
    (blocked_set None = ∅ →
     ∀ k x, shuffled !! k = Some x →
       zip (available_seats 2 2 None) shuffled !! k
       = Some (mkSeat (Z.of_nat k / 2 + 1) (Z.of_nat k mod 2 + 1), x)).
Proof.
  apply (assign_seats_row_major N Z.to_N lcg_randbelow lcg_randbelow_lt
           abc 2 2 None (Some 42) 0%N).
  vm_compute. lia.
Defined.

Lemma assign_seats_keeps_students_witness :
  let h : gmap loc (list str) := {[ 7%nat := abc ]} in
  let run := assign_seats_st Z.to_N lcg_randbelow 7%nat 2 2 None (Some 42) 0%N h in
  run.2 !! 7%nat = Some abc ∧
  (∀ q, is_Some (h !! q) → run.2 !! q = h !! q) ∧
  run.1 = lcg_assign abc 2 2 None (Some 42) 0%N.
Proof.
  apply (assign_seats_keeps_students N Z.to_N lcg_randbelow 7%nat
           {[ 7%nat := abc ]} abc 2 2 None (Some 42) 0%N).
  reflexivity.
Defined.

Lemma load_students_entries_witness :
  load_students (λ _, Ok (file_text roster_lines roster_last)) "logic.txt"
  = Ok [lit "007 JaneDoe"; lit "Solo"].
Proof.
  apply (load_students_entries (λ _, Ok (file_text roster_lines roster_last))
           "logic.txt" roster_lines roster_last).
  - reflexivity.
  - compute_done.
  - compute_done.
Defined.

Lemma format_grid_renders_witness :
  format_grid [(mkSeat 1 2, lit "Bob"); (mkSeat 2 1, [])] 2 2
  = Ok (lit "R1C1: - | R1C2: Bob" ++ [10%N] ++ lit "R2C1: - | R2C2: -").
Proof.
  apply (format_grid_renders [(mkSeat 1 2, lit "Bob"); (mkSeat 2 1, [])] 2 2).
  compute_done.
Defined.

Lemma format_grid_empty_student_witness :
  format_grid [(mkSeat 1 2, lit "Bob"); (mkSeat 1 1, []); (mkSeat 2 2, lit "Al")] 2 2
  = format_grid [(mkSeat 1 2, lit "Bob"); (mkSeat 2 2, lit "Al")] 2 2.
Proof.
  apply (format_grid_empty_student 2 2 [(mkSeat 1 2, lit "Bob")] (mkSeat 1 1)
           [(mkSeat 2 2, lit "Al")]).
  - compute_done.
  - compute_done.
Defined.

Lemma assign_seats_in_grid_witness :
  Forall (λ s, 1 ≤ row s ≤ 2 ∧ 1 ≤ col s ≤ 2)
    [mkSeat 1 2; mkSeat 2 1; mkSeat 2 2] ∧
  ∃ text,
    format_grid [(mkSeat 1 2, lit "A"); (mkSeat 2 1, lit "C"); (mkSeat 2 2, lit "B")]
      2 2 = Ok text.
Proof.
  apply (assign_seats_in_grid Z.to_N lcg_randbelow abc 2 2 (Some [(1, 1)])
           (Some 42) 0%N
           [(mkSeat 1 2, lit "A"); (mkSeat 2 1, lit "C"); (mkSeat 2 2, lit "B")]).
  reflexivity.
Defined.

(** * Further properties *)

(** ** Seat labels *)

Lemma lit_inj s1 s2 : lit s1 = lit s2 → s1 = s2.
Proof.
  unfold lit. intros Heq.
  rewrite <-(string_of_list_ascii_of_string s1),
          <-(string_of_list_ascii_of_string s2).
  f_equal. revert Heq.
  generalize (list_ascii_of_string s1) (list_ascii_of_string s2).
  intros l1. induction l1 as [|a l1 IH]; intros [|b l2]; simpl; try done.
  intros [= Hab Hl]. f_equal; [|by apply IH].
  by rewrite <-(ascii_N_embedding a), <-(ascii_N_embedding b), Hab.
Qed.

Lemma to_int_not_nil i : Z.to_int i ≠ Decimal.Pos Decimal.Nil ∧
                         Z.to_int i ≠ Decimal.Neg Decimal.Nil.
Proof.
  destruct i as [|p|p]; simpl; split; try done;
    intros [= Hp]; by apply DecimalPos.Unsigned.to_uint_nonnil in Hp.
Qed.

Lemma int_to_str_inj i j : int_to_str i = int_to_str j → i = j.
Proof.
  unfold int_to_str. intros Heq%lit_inj.
  apply DecimalZ.to_int_inj.
  destruct (to_int_not_nil i) as [Hi1 Hi2], (to_int_not_nil j) as [Hj1 Hj2].
  apply (f_equal NilZero.int_of_string) in Heq.
  rewrite !NilZero.isi in Heq by done. congruence.
Qed.

Lemma uint_chars d :
  Forall (.∈ numeral_chars) (lit (NilEmpty.string_of_uint d)).
Proof.
  induction d; simpl; try (constructor; [compute_done|done]). constructor.
Qed.

Lemma int_to_str_chars i : Forall (.∈ numeral_chars) (int_to_str i).
Proof.
  unfold int_to_str.
  assert (∀ d, Forall (.∈ numeral_chars) (lit (NilZero.string_of_uint d))) as Hu.
  { intros d. destruct d; try apply uint_chars. compute_done. }
  destruct (Z.to_int i) as [d|d]; simpl; [apply Hu|].
  constructor; [compute_done|apply Hu].
Qed.

Lemma app_cons_inj {A} (c : A) l1 l2 k1 k2 :
  c ∉ l1 → c ∉ k1 → l1 ++ c :: l2 = k1 ++ c :: k2 → l1 = k1 ∧ l2 = k2.
Proof.
  revert k1. induction l1 as [|a l1 IH]; intros [|b k1] Hl Hk; simpl.
  - by intros [= ->].
  - intros [= -> _]. by apply not_elem_of_cons in Hk as [? _].
  - intros [= -> _]. by apply not_elem_of_cons in Hl as [? _].
  - intros [= -> Heq].
    apply not_elem_of_cons in Hl as [_ Hl]. apply not_elem_of_cons in Hk as [_ Hk].
    destruct (IH k1 Hl Hk Heq) as [-> ->]. done.
Qed.

(** X1. Two seats have the same label only when they are the same seat. *)
Theorem label_inj s1 s2 : label s1 = label s2 ↔ s1 = s2.
Proof.
  split; [|by intros ->].
  assert (∀ i, 67%N ∉ int_to_str i) as HC.
  { intros i Hin.
    pose proof (proj1 (Forall_forall _ _) (int_to_str_chars i) _ Hin) as Hc.
    revert Hc. compute_done. }
  destruct s1 as [r1 c1], s2 as [r2 c2]. unfold label. simpl.
  change (lit "R") with [82%N]. change (lit "C") with [67%N]. simpl.
  intros [= Heq].
  apply app_cons_inj in Heq as [Hr Hc]; [|apply HC..].
  by rewrite (int_to_str_inj _ _ Hr), (int_to_str_inj _ _ Hc).
Qed.

(** ** What the loader returns *)

Lemma split_from_tokens cur s :
  Forall (λ c, ¬ is_space c) cur → Forall token (split_from cur s).
Proof.
  revert cur. induction s as [|c s IH]; intros cur Hcur; simpl.
  - case_decide; [constructor|]. by repeat constructor.
  - case_decide as Hc.
    + case_decide; [by apply IH|].
      constructor; [done|]. by apply IH.
    + apply IH, Forall_app. split; [done|]. by constructor.
Qed.

Lemma token_concat ts : Forall token ts → ts ≠ [] → token (concat ts).
Proof.
  intros Hts Hne. split.
  - destruct Hts as [|t ts [Ht _] _]; [done|]. simpl. by destruct t.
  - apply Forall_concat. eapply Forall_impl; [exact Hts|]. by intros t [_ ?].
Qed.

Lemma token_display x : student_record x → display x = x.
Proof.
  intros Hx. unfold display. rewrite decide_False; [done|].
  destruct Hx as [[? _]|(i & n & [Hi _] & _ & ->)]; [done|]. by destruct i.
Qed.

Lemma load_lines_records lines :
  ∀ students, Forall student_record students →
  ∃ out, load_lines lines students = Ok out ∧ Forall student_record out.
Proof.
  induction lines as [|line lines IH]; intros students Hst; simpl; [by eexists|].
  case_decide as Hline; [by apply IH|].
  pose proof (split_from_tokens [] (strip line) ltac:(constructor)) as Htok.
  apply split_strip_nonempty in Hline. fold (split (strip line)) in Htok.
  destruct (split (strip line)) as [|p0 ps]; [done|].
  apply Forall_cons in Htok as [Hp0 Hps].
  case_decide as Hlen; apply IH, Forall_app; (split; [done|]);
    apply Forall_singleton.
  - right. exists p0, (concat ps). split_and!; [done| |done].
    apply token_concat; [done|]. destruct ps; [simpl in Hlen; lia|done].
  - by left.
Qed.

Lemma load_students_Ok_records read_text path students :
  load_students read_text path = Ok students → Forall student_record students.
Proof.
  unfold load_students. destruct (read_text path) as [text|e]; simpl; [|done].
  destruct (load_lines_records (splitlines text) [] ltac:(constructor))
    as (out & -> & Hout). by intros [= <-].
Qed.

Lemma load_students_Raise read_text path e :
  load_students read_text path = Raise e → read_text path = Raise e.
Proof.
  unfold load_students. destruct (read_text path) as [text|e']; simpl.
  - by destruct (load_lines_records (splitlines text) [] ltac:(constructor))
      as (out & -> & Hout).
  - by intros [= ->].
Qed.

(** X2. Reading is the only way the loader fails, and it passes that
    exception on.  Every string it returns is a single field or two fields
    with one space between them; such a string is not empty, so the grid
    shows it as it is. *)
Theorem load_students_records read_text path :
  match load_students read_text path with
  | Ok students =>
      Forall student_record students ∧ Forall (λ x, display x = x) students
  | Raise e => read_text path = Raise e
  end.
Proof.
  destruct (load_students read_text path) as [students|e] eqn:Hload.
  - apply load_students_Ok_records in Hload. split; [done|].
    eapply Forall_impl; [exact Hload|]. apply token_display.
  - by apply load_students_Raise in Hload.
Qed.

Lemma token_no_break t : token t → Forall (λ c, ¬ is_linebreak c) t.
Proof. intros [_ Ht]. by apply word_no_break. Qed.

Lemma record_layout x :
  student_record x →
  ∃ l, wf_layout l ∧ line_text l = x ∧ entry l = Some x.
Proof.
  intros [[Hne Hx]|(i & n & [Hi Hiw] & [Hn Hnw] & ->)].
  - exists (Layout [] [(x, [])]). split_and!.
    + split; [constructor|]. simpl. by split_and!.
    + unfold line_text. simpl. by rewrite !app_nil_r.
    + done.
  - exists (Layout [] [(i, lit " "); (n, [])]). split_and!.
    + split; [constructor|]. simpl. split_and!; try done. compute_done.
    + unfold line_text. simpl. by rewrite !app_nil_r, <-(assoc_L (++)).
    + unfold entry. simpl. by rewrite app_nil_r.
Qed.

Lemma splitlines_join entries :
  Forall (λ x, x ≠ [] ∧ Forall (λ c, ¬ is_linebreak c) x) entries →
  splitlines (join [10%N] entries) = entries.
Proof.
  unfold splitlines. induction 1 as [|x entries [Hne Hx] Hrest IH]; [done|].
  destruct entries as [|y entries].
  - simpl. rewrite <-(app_nil_r x) at 1. rewrite splitlines_from_text by done.
    simpl. by rewrite decide_False.
  - change (join [10%N] (x :: y :: entries))
      with (x ++ [10%N] ++ join [10%N] (y :: entries)).
    rewrite splitlines_from_text, splitlines_from_end by (done || compute_done).
    by rewrite app_nil_l, IH.
Qed.

(** X3. Writing the loaded students one per line and loading that text
    gives the same list again. *)
Theorem load_students_reload read_text path students :
  load_students read_text path = Ok students →
  load_students (λ _, Ok (join [10%N] students)) path = Ok students.
Proof.
  intros Hload. apply load_students_Ok_records in Hload as Hrec.
  unfold load_students. simpl.
  assert (∃ ls, Forall wf_layout ls ∧ line_text <$> ls = students ∧
                omap entry ls = students) as (ls & Hwf & Htext & Hentry).
  { clear Hload. induction Hrec as [|x students Hx _ (ls & Hwf & Ht & He)].
    { by exists []. }
    destruct (record_layout x Hx) as (l & Hl & Hlt & Hle).
    exists (l :: ls). split_and!; [by constructor|by rewrite fmap_cons, Hlt, Ht|].
    rewrite <-He. simpl. by rewrite Hle. }
  rewrite splitlines_join.
  - rewrite <-Htext, load_lines_layouts by done. by rewrite Hentry, Htext.
  - eapply Forall_impl; [exact Hrec|]. intros x Hx. split.
    + rewrite <-(token_display x Hx). unfold display. by case_decide.
    + destruct Hx as [Hx|(i & n & Hi & Hn & ->)]; [by apply token_no_break|].
      rewrite !Forall_app. split_and!; [by apply token_no_break|compute_done|].
      by apply token_no_break.
Qed.

Lemma load_students_reload_witness :
  load_students (λ _, Ok (join [10%N] [lit "007 JaneDoe"; lit "Solo"])) "logic.txt"
  = Ok [lit "007 JaneDoe"; lit "Solo"].
Proof.
  apply (load_students_reload (λ _, Ok (file_text roster_lines roster_last))
           "logic.txt" [lit "007 JaneDoe"; lit "Solo"]).
  reflexivity.
Defined.

(** ** More on the assigner *)

(** X4. The number of available seats: the seats of the grid less the
    different blocked seats that lie in the grid. *)
Theorem available_seats_count rows cols blocked :
  (length (available_seats rows cols blocked)
   + size (filter (in_grid rows cols) (blocked_set blocked))
   = Z.to_nat rows * Z.to_nat cols)%nat.
Proof.
  rewrite <-length_all_seats. unfold available_seats.
  set (B := blocked_set blocked). set (l := all_seats rows cols).
  rewrite <-(Permutation_length (filter_app_complement (λ s : Seat, s ∉ B) l)).
  rewrite length_app. f_equal.
  assert (filter (in_grid rows cols) B
          =@{gset Seat} list_to_set (filter (λ s : Seat, ¬ (s ∉ B)) l)) as ->.
  { apply set_eq. intros s.
    rewrite elem_of_filter, elem_of_list_to_set, list_elem_of_filter.
    unfold l. rewrite elem_of_all_seats.
    destruct (decide (s ∈ B)); tauto. }
  apply size_list_to_set, NoDup_filter, NoDup_all_seats.
Qed.

Lemma blocked_set_ext b1 b2 :
  (∀ rc, rc ∈ default [] b1 ↔ rc ∈ default [] b2) →
  blocked_set b1 = blocked_set b2.
Proof.
  intros Hext. apply set_eq. intros s. unfold blocked_set.
  rewrite !elem_of_list_to_set, !list_elem_of_fmap.
  split; intros (rc & -> & Hrc); exists rc; (split; [done|]); by apply Hext.
Qed.

(** X5. Only the set of blocked seats matters: two blocked lists with the
    same entries, in any order and with any repetitions, or no list in
    place of an empty one, give the same outcome. *)
Theorem assign_seats_blocked_as_set {Rng} (seed_rng : Z → Rng)
    (randbelow : Rng → nat → nat * Rng) students rows cols b1 b2 seed os :
  (∀ rc, rc ∈ default [] b1 ↔ rc ∈ default [] b2) →
  assign_seats seed_rng randbelow students rows cols b1 seed os
  = assign_seats seed_rng randbelow students rows cols b2 seed os.
Proof.
  intros Hext. unfold assign_seats, available_seats.
  by rewrite (blocked_set_ext b1 b2 Hext).
Qed.

Lemma assign_seats_blocked_as_set_witness :
  lcg_assign abc 2 2 (Some [(1, 1); (2, 2); (1, 1)]) (Some 42) 0%N
  = lcg_assign abc 2 2 (Some [(2, 2); (1, 1)]) (Some 42) 0%N.
Proof.
  apply (assign_seats_blocked_as_set Z.to_N lcg_randbelow abc 2 2
           (Some [(1, 1); (2, 2); (1, 1)]) (Some [(2, 2); (1, 1)])).
  intros rc. simpl. rewrite !elem_of_cons. tauto.
Defined.

(** X6. A room with no row or no column has no seat: an empty list of
    students gets the empty assignment and any other list the capacity
    error. *)
Theorem assign_seats_no_seats {Rng} (seed_rng : Z → Rng)
    (randbelow : Rng → nat → nat * Rng) students rows cols blocked seed os :
  rows ≤ 0 ∨ cols ≤ 0 →
  available_seats rows cols blocked = [] ∧
  assign_seats seed_rng randbelow students rows cols blocked seed os
  = if decide (students = []) then Ok [] else Raise capacity_error.
Proof.
  intros Hdim.
  assert (available_seats rows cols blocked = []) as Hnil.
  { apply length_zero_iff_nil, Nat.le_0_r.
    etrans; [apply length_filter|]. rewrite length_all_seats. nia. }
  split; [done|]. unfold assign_seats. rewrite Hnil.
  destruct students as [|x students]; [done|].
  rewrite decide_True by (simpl; lia). done.
Qed.

Lemma assign_seats_no_seats_witness :
  available_seats 0 9 None = [] ∧
  lcg_assign abc 0 9 None (Some 42) 0%N = Raise capacity_error.
Proof.
  apply (assign_seats_no_seats Z.to_N lcg_randbelow abc 0 9 None (Some 42) 0%N).
  left. lia.
Defined.

(** *** Order of the seats *)

Lemma StronglySorted_lookup {A} (R : relation A) (l : list A) :
  (∀ i j a b, (i < j)%nat → l !! i = Some a → l !! j = Some b → R a b) →
  StronglySorted R l.
Proof.
  induction l as [|x l IH]; intros Hl; constructor.
  - apply IH. intros i j a b Hij Hi Hj. by apply (Hl (S i) (S j)); [lia|..].
  - apply Forall_forall. intros y Hy.
    apply list_elem_of_lookup in Hy as [j Hj].
    by apply (Hl 0%nat (S j)); [lia|..].
Qed.

Lemma StronglySorted_sublist {A} (R : relation A) (k l : list A) :
  k `sublist_of` l → StronglySorted R l → StronglySorted R k.
Proof.
  induction 1 as [|x k l Hkl IH|x k l Hkl IH]; intros Hl.
  - constructor.
  - apply StronglySorted_inv in Hl as [Hl Hx]. constructor; [by apply IH|].
    apply Forall_forall. intros y Hy.
    apply (proj1 (Forall_forall _ _) Hx). by eapply elem_of_sublist.
  - apply StronglySorted_inv in Hl as [Hl _]. by apply IH.
Qed.

Lemma all_seats_sorted rows cols : StronglySorted seat_lt (all_seats rows cols).
Proof.
  apply StronglySorted_lookup. intros i j a b Hij Hi Hj.
  apply lookup_lt_Some in Hj as Hjlt. rewrite length_all_seats in Hjlt.
  rewrite lookup_all_seats in Hi, Hj by lia.
  injection Hi as <-. injection Hj as <-.
  assert (0 < cols) as Hc by nia.
  unfold seat_lt. simpl.
  pose proof (Z.div_le_mono (Z.of_nat i) (Z.of_nat j) cols Hc ltac:(lia)) as Hq.
  pose proof (Z.div_mod (Z.of_nat i) cols ltac:(lia)) as Ei.
  pose proof (Z.div_mod (Z.of_nat j) cols ltac:(lia)) as Ej.
  destruct (decide (Z.of_nat i `div` cols = Z.of_nat j `div` cols)) as [He|Hne].
  - right. split; [lia|]. rewrite He in Ei. lia.
  - left. lia.
Qed.

(** X7. The pairs come in row-major order of their seats: each seat is in
    a later row than the seats before it, or in the same row and a later
    column. *)
Theorem assign_seats_sorted {Rng} (seed_rng : Z → Rng)
    (randbelow : Rng → nat → nat * Rng) students rows cols blocked seed os pairs :
  assign_seats seed_rng randbelow students rows cols blocked seed os = Ok pairs →
  StronglySorted seat_lt pairs.*1.
Proof.
  intros Hok. apply assign_seats_Ok_inv in Hok as (shuffled & _ & _ & ->).
  rewrite fst_zip_take.
  apply (StronglySorted_sublist _ _ (all_seats rows cols)); [|apply all_seats_sorted].
  etrans; [apply sublist_take|]. apply sublist_filter.
Qed.

Lemma assign_seats_sorted_witness :
  StronglySorted seat_lt [mkSeat 1 2; mkSeat 2 1; mkSeat 2 2].
Proof.
  apply (assign_seats_sorted Z.to_N lcg_randbelow abc 2 2 (Some [(1, 1)])
           (Some 42) 0%N
           [(mkSeat 1 2, lit "A"); (mkSeat 2 1, lit "C"); (mkSeat 2 2, lit "B")]).
  reflexivity.
Defined.

(** *** The store after the call *)






(** ** More on the grid renderer *)

Lemma py_index_wrap (n : nat) (i : Z) :
  - Z.of_nat n < i ≤ Z.of_nat n →
  py_index n (i - 1) = Some (Z.to_nat (wrap (Z.of_nat n) i - 1)).
Proof.
  intros Hi. unfold py_index, wrap.
  destruct (decide (i ≤ 0)).
  - rewrite decide_False, decide_True by lia. f_equal. lia.
  - by rewrite decide_True by lia.
Qed.

Lemma py_index_outside (n : nat) (i : Z) :
  ¬ (- Z.of_nat n < i ≤ Z.of_nat n) → py_index n (i - 1) = None.
Proof.
  intros Hi. unfold py_index. by rewrite !decide_False by lia.
Qed.

Lemma wrap_in_range (n i : Z) :
  - Z.max 0 n < i ≤ Z.max 0 n → 1 ≤ wrap n i ≤ Z.max 0 n.
Proof. unfold wrap. case_decide; lia. Qed.

Lemma grid_set_addressable rows cols grid s v :
  shape (Z.to_nat rows) (Z.to_nat cols) grid → addressable rows cols s →
  grid_set grid (row s - 1) (col s - 1) v
  = grid_set grid (wrap rows (row s) - 1) (wrap cols (col s) - 1) v.
Proof.
  intros [Hlen Hlines] [Hr Hc].
  pose proof (wrap_in_range rows (row s) Hr) as Hwr.
  pose proof (wrap_in_range cols (col s) Hc) as Hwc.
  unfold grid_set. rewrite Hlen.
  rewrite (py_index_wrap _ (row s)), py_index_in_range by lia.
  replace (wrap (Z.of_nat (Z.to_nat rows)) (row s)) with (wrap rows (row s))
    by (unfold wrap; case_decide; lia).
  destruct (grid !! _) as [line|] eqn:Hline; [|done].
  rewrite (Forall_lookup_1 _ _ _ _ Hlines Hline).
  rewrite (py_index_wrap _ (col s)), py_index_in_range by lia.
  by replace (wrap (Z.of_nat (Z.to_nat cols)) (col s)) with (wrap cols (col s))
    by (unfold wrap; case_decide; lia).
Qed.

Lemma grid_set_not_addressable rows cols grid s v :
  shape (Z.to_nat rows) (Z.to_nat cols) grid → ¬ addressable rows cols s →
  grid_set grid (row s - 1) (col s - 1) v = Raise IndexError.
Proof.
  intros [Hlen Hlines] Hs. unfold grid_set. rewrite Hlen.
  destruct (decide (- Z.max 0 rows < row s ≤ Z.max 0 rows)) as [Hr|Hr].
  - rewrite (py_index_wrap _ (row s)) by lia.
    destruct (grid !! _) as [line|] eqn:Hline; [|done].
    rewrite (Forall_lookup_1 _ _ _ _ Hlines Hline).
    rewrite py_index_outside; [done|]. unfold addressable in Hs. lia.
  - by rewrite py_index_outside by lia.
Qed.

Lemma wrap_seat_in_grid rows cols (p : Seat * str) :
  addressable rows cols p.1 →
  in_grid (Z.of_nat (Z.to_nat rows)) (Z.of_nat (Z.to_nat cols))
    (wrap_seat rows cols p).1.
Proof.
  intros [Hr Hc]. unfold in_grid. simpl.
  pose proof (wrap_in_range rows _ Hr). pose proof (wrap_in_range cols _ Hc). lia.
Qed.

Lemma fill_grid_wrap rows cols assignments :
  ∀ grid, shape (Z.to_nat rows) (Z.to_nat cols) grid →
  Forall (addressable rows cols) assignments.*1 →
  fill_grid assignments grid = fill_grid (wrap_seat rows cols <$> assignments) grid.
Proof.
  induction assignments as [|[s v] rest IH]; intros grid Hshape Hall; [done|].
  apply Forall_cons in Hall as [Hs Hrest]. simpl.
  rewrite (grid_set_addressable rows cols) by done.
  destruct (grid_set_in_grid _ _ grid (wrap_seat rows cols (s, v)).1 v Hshape
              (wrap_seat_in_grid rows cols (s, v) Hs)) as (g1 & Hg1 & Hshape1 & _).
  simpl in Hg1. rewrite Hg1. simpl. by apply IH.
Qed.

Lemma fill_grid_not_addressable rows cols assignments :
  ∀ grid, shape (Z.to_nat rows) (Z.to_nat cols) grid →
  ¬ Forall (addressable rows cols) assignments.*1 →
  fill_grid assignments grid = Raise IndexError.
Proof.
  induction assignments as [|[s v] rest IH]; intros grid Hshape Hall.
  { destruct Hall. constructor. }
  simpl. destruct (decide (addressable rows cols s)) as [Hs|Hs].
  - rewrite (grid_set_addressable rows cols) by done.
    destruct (grid_set_in_grid _ _ grid (wrap_seat rows cols (s, v)).1 v Hshape
                (wrap_seat_in_grid rows cols (s, v) Hs)) as (g1 & Hg1 & Hshape1 & _).
    simpl in Hg1. rewrite Hg1. simpl. apply IH; [done|].
    intros Hrest. apply Hall. by constructor.
  - by rewrite (grid_set_not_addressable rows cols).
Qed.

(** X9. [format_grid] raises [IndexError] exactly when the row or column of
    some seat cannot index the grid, wherever that pair stands in the list.
    Otherwise it renders, and a row or column that is zero or negative
    counts from the end: the pair is shown at the seat [rows] rows or
    [cols] columns further. *)
Theorem format_grid_outcome assignments rows cols :
  if decide (Forall (addressable rows cols) assignments.*1)
  then format_grid assignments rows cols
       = Ok (rendered_grid (wrap_seat rows cols <$> assignments) rows cols)
  else format_grid assignments rows cols = Raise IndexError.
Proof.
  pose proof (shape_replicate (Z.to_nat rows) (Z.to_nat cols)) as Hshape.
  case_decide as Hall.
  - rewrite <-(format_grid_in_grid (wrap_seat rows cols <$> assignments)).
    + unfold format_grid. by rewrite (fill_grid_wrap rows cols).
    + rewrite <-list_fmap_compose. apply Forall_fmap, Forall_forall.
      intros p Hp. simpl.
      assert (addressable rows cols p.1) as [Hr Hc].
      { apply (proj1 (Forall_forall _ _) Hall), list_elem_of_fmap. eauto. }
      pose proof (wrap_in_range rows _ Hr). pose proof (wrap_in_range cols _ Hc).
      unfold in_grid. simpl. lia.
  - unfold format_grid. by rewrite (fill_grid_not_addressable rows cols).
Qed.

Lemma stored_NoDup a s x :
  NoDup a.*1 → stored a s = Some x ↔ (s, x) ∈ a.
Proof.
  induction a as [|[s' x'] a IH]; simpl.
  { intros _. split; [done|]. by intros ?%elem_of_nil. }
  intros [Hs' Ha]%NoDup_cons. specialize (IH Ha). rewrite elem_of_cons.
  destruct (stored a s) as [y|] eqn:Hst.
  - split.
    + intros [= ->]. right. by apply IH.
    + intros [[= -> ->]|Hin]; [|by apply IH].
      rewrite stored_None in Hst; done.
  - case_decide as Heq.
    + subst s'. split; [intros [= ->]; by left|].
      intros [[= ->]|Hin]; [done|]. apply IH in Hin. done.
    + split; [done|]. intros [[= -> ->]|Hin]; [done|]. by apply IH in Hin.
Qed.

(** X10. When no seat occurs twice, the order of the pairs does not matter
    to the rendering. *)
Theorem format_grid_Permutation a a' rows cols :
  NoDup a.*1 → Forall (in_grid rows cols) a.*1 → a ≡ₚ a' →
  format_grid a rows cols = format_grid a' rows cols.
Proof.
  intros Hnd Hin Hp.
  assert (NoDup a'.*1) as Hnd' by by rewrite <-Hp.
  assert (Forall (in_grid rows cols) a'.*1) as Hin' by by rewrite <-Hp.
  rewrite !format_grid_in_grid by done. unfold rendered_grid. do 2 f_equal.
  apply list_fmap_ext. intros _ r _. f_equal.
  apply list_fmap_ext. intros _ c _. unfold rendered_cell. do 2 f_equal.
  assert (stored a (mkSeat r c) = stored a' (mkSeat r c)) as ->; [|done].
  apply option_eq. intros x. rewrite !stored_NoDup by done. by rewrite Hp.
Qed.

Lemma format_grid_Permutation_witness :
  format_grid [(mkSeat 1 2, lit "Bob"); (mkSeat 2 1, lit "Al")] 2 2
  = format_grid [(mkSeat 2 1, lit "Al"); (mkSeat 1 2, lit "Bob")] 2 2.
Proof.
  apply (format_grid_Permutation [(mkSeat 1 2, lit "Bob"); (mkSeat 2 1, lit "Al")]
           [(mkSeat 2 1, lit "Al"); (mkSeat 1 2, lit "Bob")] 2 2).
  - compute_done.
  - compute_done.
  - apply perm_swap.
Defined.

(** X11. The grid of an assignment shows every student at the seat the
    assignment gives them, and the placeholder at every other seat, the
    blocked seats among them. *)
Theorem assign_seats_format_grid {Rng} (seed_rng : Z → Rng)
    (randbelow : Rng → nat → nat * Rng) students rows cols blocked seed os pairs :
  assign_seats seed_rng randbelow students rows cols blocked seed os = Ok pairs →
  format_grid pairs rows cols = Ok (rendered_grid pairs rows cols) ∧
  (∀ s x, (s, x) ∈ pairs →
     rendered_cell pairs (row s) (col s) = label s ++ lit ": " ++ display x) ∧
  (∀ r c, mkSeat r c ∉ pairs.*1 →
     rendered_cell pairs r c = label (mkSeat r c) ++ lit ": -") ∧
  (∀ r c, (r, c) ∈ default [] blocked → mkSeat r c ∉ pairs.*1).
Proof.
  intros Hok. apply assign_seats_Ok_inv in Hok as (shuffled & _ & _ & ->).
  set (pairs := zip (available_seats rows cols blocked) shuffled).
  assert (∀ s, s ∈ pairs.*1 → s ∈ available_seats rows cols blocked) as Hsub.
  { intros s. unfold pairs. rewrite fst_zip_take. apply subseteq_take. }
  assert (NoDup pairs.*1) as Hnd.
  { unfold pairs. rewrite fst_zip_take.
    apply (sublist_NoDup _ _ (NoDup_available_seats rows cols blocked)),
      sublist_take. }
  split_and!.
  - apply format_grid_in_grid, Forall_forall. intros s Hs.
    by apply Hsub, elem_of_available_seats in Hs as [? _].
  - intros [r c] x Hin. unfold rendered_cell. simpl.
    by rewrite (proj2 (stored_NoDup pairs (mkSeat r c) x Hnd) Hin).
  - intros r c Hnot. unfold rendered_cell. by rewrite stored_None.
  - intros r c Hrc Hin. apply Hsub, elem_of_available_seats in Hin as [_ Hnb].
    apply Hnb. unfold blocked_set.
    apply elem_of_list_to_set, list_elem_of_fmap. by exists (r, c).
Qed.

Lemma assign_seats_format_grid_witness :
  let pairs := [(mkSeat 1 2, lit "A"); (mkSeat 2 1, lit "C"); (mkSeat 2 2, lit "B")] in
  format_grid pairs 2 2 = Ok (rendered_grid pairs 2 2) ∧
  (∀ s x, (s, x) ∈ pairs →
     rendered_cell pairs (row s) (col s) = label s ++ lit ": " ++ display x) ∧
  (∀ r c, mkSeat r c ∉ pairs.*1 →
     rendered_cell pairs r c = label (mkSeat r c) ++ lit ": -") ∧
  (∀ r c, (r, c) ∈ [(1, 1)] → mkSeat r c ∉ pairs.*1).
Proof.
  apply (assign_seats_format_grid Z.to_N lcg_randbelow abc 2 2 (Some [(1, 1)])
           (Some 42) 0%N).
  reflexivity.
Defined.

(** ** The entry point *)

Lemma foldl_print out assignments :
  foldl (λ out p, print (label p.1 ++ lit ": " ++ p.2) out) out assignments
  = out ++ list_lines assignments.
Proof.
  revert out. induction assignments as [|p rest IH]; intros out.
  { unfold list_lines. cbn [foldl fmap list_fmap concat]. by rewrite app_nil_r. }
  cbn [foldl]. rewrite IH. unfold print, list_lines.
  rewrite fmap_cons. cbn [concat]. by rewrite <-!(assoc_L (++)).
Qed.

Lemma available_seats_7_9 :
  available_seats 7 9 (Some []) = all_seats 7 9 ∧ length (all_seats 7 9) = 63%nat.
Proof.
  split; [by apply blocked_set_empty_available|]. by rewrite length_all_seats.
Qed.

Lemma main_run {Rng} (seed_rng : Z → Rng) (randbelow : Rng → nat → nat * Rng)
    (randbelow_lt : ∀ g n, (0 < n)%nat → ((randbelow g n).1 < n)%nat)
    path_exists read_text os :
  match (if path_exists "logic.txt"%string : bool
         then load_students read_text "logic.txt" else Ok demo_students) with
  | Raise e => main seed_rng randbelow path_exists read_text os = ([], Raise e)
  | Ok students =>
      if decide (63 < length students)%nat
      then main seed_rng randbelow path_exists read_text os
           = ([], Raise capacity_error)
      else ∃ shuffled,
          shuffled ≡ₚ students ∧
          main seed_rng randbelow path_exists read_text os
          = (report (zip (all_seats 7 9) shuffled), Ok ())
  end.
Proof.
  destruct available_seats_7_9 as [Hav Hlen].
  unfold main.
  destruct (if path_exists "logic.txt"%string then _ else _) as [students|e];
    [|done].
  case_decide as Hcap.
  - unfold assign_seats. rewrite Hav, Hlen. by rewrite decide_True.
  - destruct (assign_seats_fits Rng seed_rng randbelow randbelow_lt students
                7 9 (Some []) None os) as (shuffled & _ & Hp & ->).
    { rewrite Hav, Hlen. lia. }
    exists shuffled. split; [done|]. rewrite Hav.
    rewrite format_grid_in_grid.
    + rewrite foldl_print. unfold report, print.
      by rewrite !app_nil_l, <-!(assoc_L (++)).
    + rewrite fst_zip_take. apply Forall_forall. intros s Hs.
      by apply subseteq_take, elem_of_all_seats in Hs.
Qed.

(** X12. [main] fails only when [logic.txt] exists: either reading it
    raises, and that exception is passed on, or the file lists more than 63
    students, and the capacity error is raised.  In both cases nothing has
    been printed. *)
Theorem main_failure {Rng} (seed_rng : Z → Rng) (randbelow : Rng → nat → nat * Rng)
    (randbelow_lt : ∀ g n, (0 < n)%nat → ((randbelow g n).1 < n)%nat)
    path_exists read_text os e :
  (main seed_rng randbelow path_exists read_text os).2 = Raise e →
  (main seed_rng randbelow path_exists read_text os).1 = [] ∧
  path_exists "logic.txt"%string = true ∧
  (read_text "logic.txt"%string = Raise e ∨
   e = capacity_error ∧
   ∃ students, load_students read_text "logic.txt" = Ok students ∧
               (63 < length students)%nat).
Proof.
  pose proof (main_run seed_rng randbelow randbelow_lt path_exists read_text os)
    as Hrun.
  destruct (path_exists "logic.txt"%string) eqn:Hex.
  - destruct (load_students read_text "logic.txt") as [students|e'] eqn:Hload.
    + case_decide as Hcap.
      * rewrite Hrun. simpl. intros [= <-]. split_and!; [done..|].
        right. eauto.
      * destruct Hrun as (shuffled & _ & ->). done.
    + rewrite Hrun. simpl. intros [= <-]. split_and!; [done..|].
      left. by apply load_students_Raise.
  - rewrite decide_False in Hrun by (simpl; lia).
    destruct Hrun as (shuffled & _ & ->). done.
Qed.

Lemma main_failure_witness :
  (main Z.to_N lcg_randbelow (λ _, true) (λ _, Raise OSError) 0%N).1 = [] ∧
  true = true ∧
  ((Raise OSError : result str) = Raise OSError ∨
   OSError = capacity_error ∧
   ∃ students, load_students (λ _, Raise OSError) "logic.txt" = Ok students ∧
               (63 < length students)%nat).
Proof.
  apply (main_failure Z.to_N lcg_randbelow lcg_randbelow_lt (λ _, true)
           (λ _, Raise OSError) 0%N OSError).
  reflexivity.
Defined.

(** X13. When the students, read from [logic.txt] if it exists and the
    fallback list otherwise, are at most 63, [main] succeeds and prints the
    heading, one line [label: student] per student for the first seats of
    the 7 x 9 room in row-major order, the students in a shuffled order,
    then an empty line, the second heading and the grid of these pairs. *)
Theorem main_output {Rng} (seed_rng : Z → Rng) (randbelow : Rng → nat → nat * Rng)
    (randbelow_lt : ∀ g n, (0 < n)%nat → ((randbelow g n).1 < n)%nat)
    path_exists read_text os students :
  (if path_exists "logic.txt"%string : bool
   then load_students read_text "logic.txt" else Ok demo_students) = Ok students →
  (length students ≤ 63)%nat →
  ∃ shuffled,
    shuffled ≡ₚ students ∧
    main seed_rng randbelow path_exists read_text os
    = (lit "Seating assignments:" ++ [10%N] ++
       concat ((λ p, label p.1 ++ lit ": " ++ p.2 ++ [10%N])
                 <$> zip (all_seats 7 9) shuffled) ++
       [10%N] ++ lit "Room view:" ++ [10%N] ++
       rendered_grid (zip (all_seats 7 9) shuffled) 7 9 ++ [10%N],
       Ok ()) ∧
    (zip (all_seats 7 9) shuffled).*1 = take (length students) (all_seats 7 9) ∧
    (zip (all_seats 7 9) shuffled).*2 = shuffled.
Proof.
  intros Hloaded Hfit.
  pose proof (main_run seed_rng randbelow randbelow_lt path_exists read_text os)
    as Hrun.
  rewrite Hloaded, decide_False in Hrun by lia.
  destruct Hrun as (shuffled & Hp & Hmain).
  exists shuffled. split_and!; [done..| |].
  - by rewrite fst_zip_take, (Permutation_length Hp).
  - apply snd_zip. rewrite (Permutation_length Hp), length_all_seats. lia.
Qed.

Lemma main_output_witness :
  ∃ shuffled,
    shuffled ≡ₚ demo_students ∧
    main Z.to_N lcg_randbelow (λ _, false) (λ _, Raise OSError) 0%N
    = (lit "Seating assignments:" ++ [10%N] ++
       concat ((λ p, label p.1 ++ lit ": " ++ p.2 ++ [10%N])
                 <$> zip (all_seats 7 9) shuffled) ++
       [10%N] ++ lit "Room view:" ++ [10%N] ++
       rendered_grid (zip (all_seats 7 9) shuffled) 7 9 ++ [10%N],
       Ok ()) ∧
    (zip (all_seats 7 9) shuffled).*1 = take 12 (all_seats 7 9) ∧
    (zip (all_seats 7 9) shuffled).*2 = shuffled.
Proof.
  apply (main_output Z.to_N lcg_randbelow lcg_randbelow_lt (λ _, false)
           (λ _, Raise OSError) 0%N demo_students).
  - reflexivity.
  - vm_compute. lia.
Defined.

(** ** Every order can come out of the shuffle *)

Lemma swap_app {A} i j (x y rest : list A) :
  swap i j x = Ok y → swap i j (x ++ rest) = Ok (y ++ rest).
Proof.
  unfold swap.
  destruct (x !! j) as [xj|] eqn:Hj; [|done].
  destruct (x !! i) as [xi|] eqn:Hi; [|done]. intros [= <-].
  rewrite (lookup_app_l_Some _ _ _ _ Hj), (lookup_app_l_Some _ _ _ _ Hi).
  apply lookup_lt_Some in Hi, Hj.
  by rewrite !insert_app_l by (by rewrite ?length_insert).
Qed.

Lemma shuffle_loop_app {Rng A} (randbelow : Rng → nat → nat * Rng)
    idx g (x y rest : list A) :
  shuffle_loop randbelow idx g x = Ok y →
  shuffle_loop randbelow idx g (x ++ rest) = Ok (y ++ rest).
Proof.
  revert g x. induction idx as [|i idx IH]; intros g x; simpl.
  { by intros [= ->]. }
  destruct (randbelow g (i + 1)%nat) as [j g'].
  destruct (swap i j x) as [x1|e] eqn:Hswap; [|done]. simpl.
  rewrite (swap_app _ _ _ _ rest Hswap). simpl. apply IH.
Qed.

Lemma shuffle_loop_reaches {A} m :
  ∀ x target : list A, length x = S m → target ≡ₚ x →
  ∃ g, shuffle_loop scripted_randbelow (reverse (seq 1 m)) g x = Ok target.
Proof.
  induction m as [|k IH]; intros x target Hlen Hp.
  { exists []. simpl. destruct x as [|a [|??]]; try done.
    by apply Permutation_singleton_r in Hp as ->. }
  rewrite seq_S, reverse_app.
  change (reverse [(1 + k)%nat] ++ reverse (seq 1 k))
    with (S k :: reverse (seq 1 k)).
  destruct (decide (target = [])) as [->|Hne].
  { apply Permutation_length in Hp. by rewrite Hlen in Hp. }
  destruct (exists_last Hne) as (t & b & ->).
  assert (b ∈ x) as Hb.
  { rewrite <-Hp. apply elem_of_app. right. by left. }
  apply list_elem_of_lookup in Hb as [j Hj].
  apply lookup_lt_Some in Hj as Hjlt.
  destruct (lookup_lt_is_Some_2 x (S k)) as [xi Hi]; [lia|].
  set (x1 := <[j := xi]> (<[S k := b]> x)).
  assert (x1 ≡ₚ x) as Hx1 by by apply Permutation_insert_swap.
  assert (x1 !! S k = Some b) as Hlast.
  { unfold x1. destruct (decide (j = S k)) as [->|Hne'].
    - rewrite list_lookup_insert_eq by (rewrite length_insert; lia). congruence.
    - rewrite list_lookup_insert_ne, list_lookup_insert_eq by (done || lia). done. }
  assert (length x1 = S (S k)) as Hlen1 by by rewrite (Permutation_length Hx1).
  assert (x1 = take (S k) x1 ++ [b]) as Hsplit.
  { rewrite <-(take_drop (S k) x1) at 1. f_equal.
    rewrite (drop_S _ _ _ Hlast), drop_ge by lia. done. }
  destruct (IH (take (S k) x1) t) as (g' & Hg').
  { rewrite length_take. lia. }
  { apply (Permutation_app_inv_r [b]). by rewrite <-Hsplit, Hx1. }
  exists (j :: g'). cbn [shuffle_loop].
  assert (scripted_randbelow (j :: g') (S k + 1) = (j, g')) as ->.
  { unfold scripted_randbelow. cbn [hd tl]. f_equal. apply Nat.mod_small. lia. }
  assert (swap (S k) j x = Ok x1) as -> by (unfold swap; by rewrite Hj, Hi).
  change (shuffle_loop scripted_randbelow (reverse (seq 1 k)) g' x1
          = Ok (t ++ [b])).
  rewrite Hsplit. by apply shuffle_loop_app.
Qed.

(** X14. Every order of the students is a possible result: for each
    rearrangement of the list there are draws of the generator with which
    [assign_seats] returns the students in that order on the available
    seats. *)
Theorem assign_seats_reaches_every_order (seed_rng : Z → list nat)
    students target rows cols blocked :
  target ≡ₚ students →
  (length students ≤ length (available_seats rows cols blocked))%nat →
  ∃ os, assign_seats seed_rng scripted_randbelow students rows cols blocked None os
        = Ok (zip (available_seats rows cols blocked) target).
Proof.
  intros Hp Hfit.
  assert (∃ g, shuffle scripted_randbelow g students = Ok target) as [g Hg].
  { unfold shuffle, shuffle_indices. destruct students as [|a students].
    { apply Permutation_nil_r in Hp as ->. by exists []. }
    cbn [length]. rewrite Nat.sub_succ, Nat.sub_0_r.
    by apply shuffle_loop_reaches. }
  exists g. unfold assign_seats. rewrite decide_False by lia.
  unfold Random. by rewrite Hg.
Qed.

Lemma assign_seats_reaches_every_order_witness :
  ∃ os, assign_seats (λ _, []) scripted_randbelow abc 2 2 None None os
        = Ok (zip (available_seats 2 2 None) [lit "C"; lit "A"; lit "B"]).
Proof.
  apply (assign_seats_reaches_every_order (λ _, []) abc
           [lit "C"; lit "A"; lit "B"] 2 2 None).
  - apply (Permutation_cons_append [lit "A"; lit "B"] (lit "C")).
  - vm_compute. lia.
Defined.

(** ** A grid without cells *)

Lemma join_replicate_nil sep n :
  join sep (replicate n []) = concat (replicate (n - 1) sep).
Proof.
  induction n as [|[|n] IH]; [done..|].
  change (join sep (replicate (S (S n)) []))
    with ([] ++ sep ++ join sep (replicate (S n) [])).
  rewrite IH. simpl. by rewrite Nat.sub_0_r.
Qed.

(** X15. With no row or no column no seat can be shown: any pair makes
    [format_grid] raise [IndexError], and without pairs the result is a
    newline between each two of the empty rows, so the empty string for at
    most one row. *)
Theorem format_grid_no_cells assignments rows cols :
  rows ≤ 0 ∨ cols ≤ 0 →
  format_grid assignments rows cols
  = if decide (assignments = [])
    then Ok (concat (replicate (Z.to_nat rows - 1) [10%N]))
    else Raise IndexError.
Proof.
  intros Hdim. case_decide as Ha.
  - subst. rewrite format_grid_in_grid by constructor.
    unfold rendered_grid, range. f_equal.
    destruct Hdim as [Hr|Hc].
    + replace (rows + 1 - 1) with rows by lia.
      rewrite (seqZ_nil _ rows) by lia.
      by replace (Z.to_nat rows - 1)%nat with 0%nat by lia.
    + replace (cols + 1 - 1) with cols by lia. rewrite (seqZ_nil _ cols) by lia.
      rewrite <-join_replicate_nil. f_equal.
      apply list_eq. intros i. rewrite list_lookup_fmap.
      destruct (decide (i < Z.to_nat rows)%nat).
      * by rewrite lookup_seqZ_lt, lookup_replicate_2 by lia.
      * by rewrite lookup_seqZ_ge, (proj1 (lookup_replicate_None _ _ _)) by lia.
  - unfold format_grid.
    rewrite (fill_grid_not_addressable rows cols); [done|apply shape_replicate|].
    destruct assignments as [|[s v] rest]; [done|].
    intros [[Hr Hc] _]%Forall_cons. simpl in *. lia.
Qed.

Lemma format_grid_no_cells_witness :
  format_grid [] 3 0 = Ok [10%N; 10%N] ∧
  format_grid [(mkSeat 1 1, lit "A")] 3 0 = Raise IndexError.
Proof.
  split.
  - apply (format_grid_no_cells [] 3 0). right. lia.
  - apply (format_grid_no_cells [(mkSeat 1 1, lit "A")] 3 0). right. lia.
Defined.
